(** * MomentOfFluid: tetrahedral decomposition and half-space clipping

    A shallow embedding of [src/include/MoFI.H] (namespace [Foam::MoF]):
    [decomposeCell], [getVolumeAndCentre] and [splitAndDecompose].

    The OpenFOAM [scalar] is read as an exact rational ([Q]); every
    statement about numbers is therefore a statement "in exact
    arithmetic", up to [Qeq].  Vectors are triples of scalars, a
    [Tetrahedron] is a [FixedList<point, 4>], a [DynamicList] is a
    [list]. *)

From Stdlib Require Import QArith Qabs Qfield Lqa Lia List Bool Arith Permutation.
From Stdlib Require PrimFloat.
Import ListNotations.

Local Open Scope Q_scope.

(** ** Linear-algebra primitives (OpenFOAM [vector], external to the kernel) *)

Record vector : Type := mkVec { vx : Q; vy : Q; vz : Q }.

Definition point := vector.

Definition vzero : vector := mkVec 0 0 0.

Definition vadd (a b : vector) : vector :=
  mkVec (vx a + vx b) (vy a + vy b) (vz a + vz b).

Definition vsub (a b : vector) : vector :=
  mkVec (vx a - vx b) (vy a - vy b) (vz a - vz b).

(** [s * v] *)
Definition vscale (s : Q) (v : vector) : vector :=
  mkVec (s * vx v) (s * vy v) (s * vz v).

(** [v /= s] *)
Definition vdiv (v : vector) (s : Q) : vector :=
  mkVec (vx v / s) (vy v / s) (vz v / s).

(** [a & b] *)
Definition dot (a b : vector) : Q :=
  vx a * vx b + vy a * vy b + vz a * vz b.

(** [a ^ b] *)
Definition cross (a b : vector) : vector :=
  mkVec (vy a * vz b - vz a * vy b)
        (vz a * vx b - vx a * vz b)
        (vx a * vy b - vy a * vx b).

(** Equality of vectors up to [Qeq] on each component. *)
Definition veq (a b : vector) : Prop :=
  vx a == vx b /\ vy a == vy b /\ vz a == vz b.

(** Strict comparison of scalars, as the source's [<] and [>]. *)
Definition Qltb (x y : Q) : bool :=
  match x ?= y with Lt => true | _ => false end.

(** ** Tetrahedra: [FixedList<point, 4>] *)

Inductive ix : Type := i0 | i1 | i2 | i3.

Definition ix_eqb (a b : ix) : bool :=
  match a, b with
  | i0, i0 | i1, i1 | i2, i2 | i3, i3 => true
  | _, _ => false
  end.

Record Tetrahedron : Type := mkTet { t0 : point; t1 : point; t2 : point; t3 : point }.

(** [t[i]] *)
Definition tget (t : Tetrahedron) (i : ix) : point :=
  match i with i0 => t0 t | i1 => t1 t | i2 => t2 t | i3 => t3 t end.

(** [t[i] = v] *)
Definition tset (t : Tetrahedron) (i : ix) (v : point) : Tetrahedron :=
  match i with
  | i0 => mkTet v (t1 t) (t2 t) (t3 t)
  | i1 => mkTet (t0 t) v (t2 t) (t3 t)
  | i2 => mkTet (t0 t) (t1 t) v (t3 t)
  | i3 => mkTet (t0 t) (t1 t) (t2 t) v
  end.

Definition teq (a b : Tetrahedron) : Prop :=
  veq (t0 a) (t0 b) /\ veq (t1 a) (t1 b) /\ veq (t2 a) (t2 b) /\ veq (t3 a) (t3 b).

(** Translation of every vertex by [- x]. *)
Definition tshift (x : vector) (t : Tetrahedron) : Tetrahedron :=
  mkTet (vsub (t0 t) x) (vsub (t1 t) x) (vsub (t2 t) x) (vsub (t3 t) x).

(** ** getVolumeAndCentre *)

(** The unsigned volume of one tetrahedron, [tV] in the loop body. *)
Definition tetVolume (t : Tetrahedron) : Q :=
  Qabs ((1 / 6) *
        dot (cross (vsub (t1 t) (t0 t)) (vsub (t2 t) (t0 t))) (vsub (t3 t) (t0 t))).

(** The centroid of one tetrahedron, [tC] in the loop body. *)
Definition tetCentre (t : Tetrahedron) : vector :=
  vscale (1 / 4) (vadd (vadd (vadd (t0 t) (t1 t)) (t2 t)) (t3 t)).

(** One iteration of [forAll(tets, tetI)] on the accumulators
    [(volume, centre)]. *)
Definition accumulate (acc : Q * vector) (t : Tetrahedron) : Q * vector :=
  let tV := tetVolume t in
  let tC := tetCentre t in
  (fst acc + tV, vadd (snd acc) (vscale tV tC)).

(** [VSMALL] is an OpenFOAM constant that the header does not define; it
    is taken as the parameter [VSMALL] of the function. *)
Definition getVolumeAndCentre (VSMALL : Q) (tets : list Tetrahedron) : Q * vector :=
  let '(volume, centre) := fold_left accumulate tets (0, vzero) in
  (volume, vdiv centre (volume + VSMALL)).

(** ** splitAndDecompose *)

(** [hPlane] is a [Tuple2<vector, scalar>]: the normal and the offset. *)
Definition hPlane : Type := (vector * Q)%type.

(** The opposing half-space. *)
Definition opposite (h : hPlane) : hPlane :=
  (vscale (-1) (fst h), - snd h).

(** [C[i]], the signed distance of vertex [i] to the plane. *)
Definition distance (clipPlane : hPlane) (tetra : Tetrahedron) (i : ix) : Q :=
  dot (tget tetra i) (fst clipPlane) - snd clipPlane.

(** The index lists [pos], [neg], [zero]; a list holds the filled
    prefix of the [FixedList<label, 4>], its length is the counter
    [nPos], [nNeg], [nZero]. *)
Record classes : Type := mkClasses { pos : list ix; neg : list ix; zero : list ix }.

Definition classifyStep (C : ix -> Q) (k : classes) (i : ix) : classes :=
  if Qltb 0 (C i) then mkClasses (pos k ++ [i]) (neg k) (zero k)
  else if Qltb (C i) 0 then mkClasses (pos k) (neg k ++ [i]) (zero k)
  else mkClasses (pos k) (neg k) (zero k ++ [i]).

Definition classify (C : ix -> Q) : classes :=
  fold_left (classifyStep C) [i0; i1; i2; i3] (mkClasses [] [] []).

(** [l[k]] for an index list; the default is never read. *)
Definition at_ (l : list ix) (k : nat) : ix := nth k l i0.

(** The mutable locals of the split branches: the working copy [tetra],
    the scratch array [intp], and (ghost) the pairs [(p, q)] of vertex
    indices for which [1.0 / (C[p] - C[q])] has been evaluated. *)
Record scratch : Type :=
  mkScratch { tetra : Tetrahedron; intp : nat -> vector; divisions : list (ix * ix) }.

Definition setIntp (f : nat -> vector) (k : nat) (v : vector) : nat -> vector :=
  fun j => if Nat.eqb j k then v else f j.

(** The four-line block
    [invCDiff = 1/(C[p] - C[q]); w0 = -C[q]*invCDiff; w1 = +C[p]*invCDiff;
     ... (w0 * tetra[p]) + (w1 * tetra[q])]. *)
Definition edgeWeights (Cp Cq : Q) : Q * Q :=
  let invCDiff := 1 / (Cp - Cq) in
  (- Cq * invCDiff, Cp * invCDiff).

Definition edgeCut (Cp Cq : Q) (P N : vector) : vector :=
  let '(w0, w1) := edgeWeights Cp Cq in
  vadd (vscale w0 P) (vscale w1 N).

Definition edgePoint (C : ix -> Q) (tetra : Tetrahedron) (p q : ix) : vector :=
  edgeCut (C p) (C q) (tget tetra p) (tget tetra q).

(** [tetra[p] = (w0 * tetra[p]) + (w1 * tetra[q])] *)
Definition cutInPlace (C : ix -> Q) (p q : ix) (s : scratch) : scratch :=
  mkScratch (tset (tetra s) p (edgePoint C (tetra s) p q))
            (intp s)
            (divisions s ++ [(p, q)]).

(** [intp[k] = (w0 * tetra[p]) + (w1 * tetra[q])] *)
Definition cutInto (C : ix -> Q) (k : nat) (p q : ix) (s : scratch) : scratch :=
  mkScratch (tetra s)
            (setIntp (intp s) k (edgePoint C (tetra s) p q))
            (divisions s ++ [(p, q)]).

Definition setTetra (p : ix) (v : vector) (s : scratch) : scratch :=
  mkScratch (tset (tetra s) p v) (intp s) (divisions s).

(** [for (i = 0; i < n; ++i) body] *)
Definition forUpTo {S : Type} (n : nat) (body : nat -> S -> S) (s : S) : S :=
  fold_left (fun s i => body i s) (seq 0 n) s.

(** The part of [splitAndDecompose] after the classification loop: the
    two early exits and the dispatch on [(nPos, nNeg)].  The result is
    the new contents of [decompTets] together with the final locals. *)
Definition splitCases (C : ix -> Q) (k : classes) (tet : Tetrahedron)
    (decompTets : list Tetrahedron) : list Tetrahedron * scratch :=
  let s := mkScratch tet (fun _ => vzero) [] in
  let pos := pos k in
  let neg := neg k in
  let zero := zero k in
  let nPos := length pos in
  let nNeg := length neg in
  if Nat.eqb nNeg 0 then (decompTets, s)
  else if Nat.eqb nPos 0 then (decompTets ++ [tetra s], s)
  else if Nat.eqb nPos 3 then
    (* +++- *)
    let s := forUpTo nPos (fun i => cutInPlace C (at_ pos i) (at_ neg 0)) s in
    (decompTets ++ [tetra s], s)
  else if Nat.eqb nPos 2 then
    if Nat.eqb nNeg 2 then
      (* ++-- *)
      let s := forUpTo nPos (fun i => cutInto C i (at_ pos i) (at_ neg 0)) s in
      let s := forUpTo nNeg (fun i => cutInto C (i + 2) (at_ pos i) (at_ neg 1)) s in
      let s := setTetra (at_ pos 0) (intp s 2%nat) s in
      let s := setTetra (at_ pos 1) (intp s 1%nat) s in
      let out := decompTets ++ [tetra s] in
      let tmpTetra :=
        mkTet (tget (tetra s) (at_ neg 1)) (intp s 3%nat) (intp s 2%nat) (intp s 1%nat) in
      let out := out ++ [tmpTetra] in
      let tmpTetra :=
        mkTet (tget (tetra s) (at_ neg 0)) (intp s 0%nat) (intp s 1%nat) (intp s 2%nat) in
      (out ++ [tmpTetra], s)
    else
      (* ++-0 *)
      let s := forUpTo nPos (fun i => cutInPlace C (at_ pos i) (at_ neg 0)) s in
      (decompTets ++ [tetra s], s)
  else if Nat.eqb nPos 1 then
    if Nat.eqb nNeg 3 then
      (* +--- *)
      let s := forUpTo nNeg (fun i => cutInto C i (at_ pos 0) (at_ neg i)) s in
      let s := setTetra (at_ pos 0) (intp s 0%nat) s in
      let out := decompTets ++ [tetra s] in
      let tmpTetra :=
        mkTet (intp s 0%nat) (tget (tetra s) (at_ neg 1)) (tget (tetra s) (at_ neg 2))
              (intp s 1%nat) in
      let out := out ++ [tmpTetra] in
      let tmpTetra :=
        mkTet (tget (tetra s) (at_ neg 2)) (intp s 1%nat) (intp s 2%nat) (intp s 0%nat) in
      (out ++ [tmpTetra], s)
    else if Nat.eqb nNeg 2 then
      (* +--0 *)
      let s := forUpTo nNeg (fun i => cutInto C i (at_ pos 0) (at_ neg i)) s in
      let s := setTetra (at_ pos 0) (intp s 0%nat) s in
      let out := decompTets ++ [tetra s] in
      let tmpTetra :=
        mkTet (intp s 1%nat) (tget (tetra s) (at_ zero 0)) (tget (tetra s) (at_ neg 1))
              (intp s 0%nat) in
      (out ++ [tmpTetra], s)
    else
      (* +-00 *)
      let s := cutInPlace C (at_ pos 0) (at_ neg 0) s in
      (decompTets ++ [tetra s], s)
  else (decompTets, s).

(** The whole body: distances and classification, then the cases. *)
Definition splitRun (clipPlane : hPlane) (tet : Tetrahedron)
    (decompTets : list Tetrahedron) : list Tetrahedron * scratch :=
  let C := distance clipPlane tet in
  splitCases C (classify C) tet decompTets.

Definition splitAndDecompose (clipPlane : hPlane) (tet : Tetrahedron)
    (decompTets : list Tetrahedron) : list Tetrahedron :=
  fst (splitRun clipPlane tet decompTets).

(** The divisions performed by one call, in program order. *)
Definition splitDivisions (clipPlane : hPlane) (tet : Tetrahedron) : list (ix * ix) :=
  divisions (snd (splitRun clipPlane tet [])).

(** ** decomposeCell *)

Definition label : Type := nat.

(** A [face] is the ordered list of its point labels, a [cell] the list
    of its face labels. *)
Definition face : Type := list label.
Definition cell : Type := list label.
Definition pointField : Type := list point.

Record polyMesh : Type := mkMesh { faces : list face; cells : list cell }.

(** Indexing a list out of range, or reading a slot of [tmpTetra] that
    was never assigned, is undefined in the source; the model returns
    [None] there. *)
Definition bindO {A B : Type} (o : option A) (f : A -> option B) : option B :=
  match o with Some a => f a | None => None end.

Notation "x <- e ;; k" := (bindO e (fun x => k))
  (at level 61, e at next level, right associativity).

Fixpoint foldM {S A : Type} (body : S -> A -> option S) (l : list A) (s : S)
    : option S :=
  match l with
  | [] => Some s
  | a :: l' => s' <- body s a ;; foldM body l' s'
  end.

(** The local [Tetrahedron tmpTetra;] is declared without an
    initialiser: each of its four slots is either unassigned or holds a
    point. *)
Record slots : Type :=
  mkSlots { s0 : option point; s1 : option point; s2 : option point; s3 : option point }.

Definition unassigned : slots := mkSlots None None None None.

(** [tmpTetra[i] = v] *)
Definition sset (s : slots) (i : ix) (v : point) : slots :=
  match i with
  | i0 => mkSlots (Some v) (s1 s) (s2 s) (s3 s)
  | i1 => mkSlots (s0 s) (Some v) (s2 s) (s3 s)
  | i2 => mkSlots (s0 s) (s1 s) (Some v) (s3 s)
  | i3 => mkSlots (s0 s) (s1 s) (s2 s) (Some v)
  end.

(** The value copied by [tetDecomp.append(tmpTetra)]. *)
Definition contents (s : slots) : option Tetrahedron :=
  a <- s0 s ;; b <- s1 s ;; c <- s2 s ;; d <- s3 s ;; Some (mkTet a b c d).

(** Modelled from the spec: [face::centre(points)] belongs to the mesh
    collaborator and is not in the header; section 6 of the spec gives it
    as the arithmetic mean of the face's vertices. *)
Definition faceCentre (f : face) (points : pointField) : option vector :=
  sum <- foldM (fun acc l => p <- nth_error points l ;; Some (vadd acc p)) f vzero ;;
  Some (vdiv sum (inject_Z (Z.of_nat (length f)))).

(** Modelled from the spec: [face::nextLabel(i)] belongs to the mesh
    collaborator; section 6 of the spec gives it as
    [faces[f][(i+1) mod size]]. *)
Definition nextLabel (f : face) (i : nat) : option label :=
  nth_error f ((i + 1) mod length f).

(** The scan of [secondFace] for the isolated fourth point, with its
    [break]. *)
Fixpoint fillFourth (points : pointField) (xT : point) (f0 f1 f2 : label)
    (secondFace : list label) (tmpTetra : slots) : option slots :=
  match secondFace with
  | [] => Some tmpTetra
  | l :: rest =>
      if negb (Nat.eqb l f0) && negb (Nat.eqb l f1) && negb (Nat.eqb l f2)
      then p <- nth_error points l ;; Some (sset tmpTetra i3 (vsub p xT))
      else fillFourth points xT f0 f1 f2 rest tmpTetra
  end.

(** The body of [forAll(checkFace, pI)] in the face-centroid fan. *)
Definition fanStep (points : pointField) (xT : point) (checkFace : face)
    (st : slots * list Tetrahedron) (pI : nat) : option (slots * list Tetrahedron) :=
  let '(tmpTetra, tetDecomp) := st in
  l <- nth_error checkFace pI ;;
  p <- nth_error points l ;;
  let tmpTetra := sset tmpTetra i0 (vsub p xT) in
  l' <- nextLabel checkFace pI ;;
  p' <- nth_error points l' ;;
  let tmpTetra := sset tmpTetra i1 (vsub p' xT) in
  t <- contents tmpTetra ;;
  Some (tmpTetra, tetDecomp ++ [t]).

(** The body of [forAll(dCell, faceI)]. *)
Definition faceStep (faces : list face) (points : pointField) (xT : point)
    (st : slots * list Tetrahedron) (faceLabel : label)
    : option (slots * list Tetrahedron) :=
  let '(tmpTetra, tetDecomp) := st in
  checkFace <- nth_error faces faceLabel ;;
  if Nat.eqb (length checkFace) 3 then
    l0 <- nth_error checkFace 0 ;; p0 <- nth_error points l0 ;;
    let tmpTetra := sset tmpTetra i0 (vsub p0 xT) in
    l1 <- nth_error checkFace 1 ;; p1 <- nth_error points l1 ;;
    let tmpTetra := sset tmpTetra i1 (vsub p1 xT) in
    l2 <- nth_error checkFace 2 ;; p2 <- nth_error points l2 ;;
    let tmpTetra := sset tmpTetra i2 (vsub p2 xT) in
    t <- contents tmpTetra ;;
    Some (tmpTetra, tetDecomp ++ [t])
  else
    c <- faceCentre checkFace points ;;
    let tmpTetra := sset tmpTetra i2 (vsub c xT) in
    foldM (fanStep points xT checkFace) (seq 0 (length checkFace)) (tmpTetra, tetDecomp).

(** [decomposeCell(mesh, points, cellIndex, xC, tetDecomp, xT)]; the
    result is the new contents of [tetDecomp]. *)
Definition decomposeCell (mesh : polyMesh) (points : pointField) (cellIndex : label)
    (xC : point) (tetDecomp : list Tetrahedron) (xT : point)
    : option (list Tetrahedron) :=
  let tmpTetra := unassigned in
  (* Clear list *)
  let tetDecomp : list Tetrahedron := [] in
  let faces := faces mesh in
  dCell <- nth_error (cells mesh) cellIndex ;;
  if Nat.eqb (length dCell) 4 then
    c0 <- nth_error dCell 0 ;; firstFace <- nth_error faces c0 ;;
    c1 <- nth_error dCell 1 ;; secondFace <- nth_error faces c1 ;;
    f0 <- nth_error firstFace 0 ;; p0 <- nth_error points f0 ;;
    let tmpTetra := sset tmpTetra i0 (vsub p0 xT) in
    f1 <- nth_error firstFace 1 ;; p1 <- nth_error points f1 ;;
    let tmpTetra := sset tmpTetra i1 (vsub p1 xT) in
    f2 <- nth_error firstFace 2 ;; p2 <- nth_error points f2 ;;
    let tmpTetra := sset tmpTetra i2 (vsub p2 xT) in
    tmpTetra <- fillFourth points xT f0 f1 f2 secondFace tmpTetra ;;
    t <- contents tmpTetra ;;
    Some (tetDecomp ++ [t])
  else
    let tmpTetra := sset tmpTetra i3 (vsub xC xT) in
    st <- foldM (faceStep faces points xT) dCell (tmpTetra, tetDecomp) ;;
    Some (snd st).

(** ** Concrete runs *)

Definition unitTet : Tetrahedron :=
  mkTet (mkVec 0 0 0) (mkVec 1 0 0) (mkVec 0 1 0) (mkVec 0 0 1).

(** The unit tetrahedron as a mesh cell of four triangles. *)
Definition tetPoints : pointField :=
  [mkVec 0 0 0; mkVec 1 0 0; mkVec 0 1 0; mkVec 0 0 1].

Definition tetMesh : polyMesh :=
  mkMesh [[0; 2; 1]; [0; 1; 3]; [1; 2; 3]; [0; 3; 2]]%nat [[0; 1; 2; 3]]%nat.

(** The unit cube as a mesh cell of six quadrilaterals. *)
Definition cubePoints : pointField :=
  [mkVec 0 0 0; mkVec 1 0 0; mkVec 1 1 0; mkVec 0 1 0;
   mkVec 0 0 1; mkVec 1 0 1; mkVec 1 1 1; mkVec 0 1 1].

Definition cubeMesh : polyMesh :=
  mkMesh [[0; 3; 2; 1]; [4; 5; 6; 7]; [0; 1; 5; 4];
          [3; 7; 6; 2]; [0; 4; 7; 3]; [1; 2; 6; 5]]%nat
         [[0; 1; 2; 3; 4; 5]]%nat.

Definition half : Q := 1 # 2.


(** * Auxiliary notions and the specification's own definitions *)

(** The volume of the tetrahedron with the four given corners. *)
Definition vol4 (a b c d : point) : Q := tetVolume (mkTet a b c d).

(** [covers l]: the list [l] enumerates the four indices without
    repetition. *)
Definition covers (l : list ix) : bool :=
  match l with
  | [a; b; c; d] =>
      negb (ix_eqb a b) && negb (ix_eqb a c) && negb (ix_eqb a d) &&
      negb (ix_eqb b c) && negb (ix_eqb b d) && negb (ix_eqb c d)
  | _ => false
  end.

(** [corners X i j k l A B C D]: the vertices of [X] at the indices
    [i], [j], [k], [l] are [A], [B], [C], [D], up to [veq]. *)
Definition corners (X : Tetrahedron) (i j k l : ix) (A B C D : point) : Prop :=
  veq (tget X i) A /\ veq (tget X j) B /\ veq (tget X k) C /\ veq (tget X l) D.

(** The point [a P + (1 - a) N] of the edge [P N]. *)
Definition lerp (a : Q) (P N : point) : point :=
  vadd (vscale a P) (vscale (1 - a) N).

(** What the classification loop establishes: the signs of the
    distances in each class, and that the three classes together
    enumerate the four vertices. *)
Record classified (C : ix -> Q) (k : classes) : Prop := {
  cl_pos : Forall (fun i => 0 < C i) (pos k);
  cl_neg : Forall (fun i => C i < 0) (neg k);
  cl_zero : Forall (fun i => C i == 0) (zero k);
  cl_covers : covers (pos k ++ neg k ++ zero k) = true
}.

(** The classes of the opposing half-space: [pos] and [neg] change
    places. *)
Definition swapped (k : classes) : classes :=
  mkClasses (neg k) (pos k) (zero k).

(** The [volume] accumulator of [getVolumeAndCentre] after its loop. *)
Definition volumeSum (tets : list Tetrahedron) : Q :=
  fst (fold_left accumulate tets (0, vzero)).

(** The triple product [((t1 - t0) ^ (t2 - t0)) & (t3 - t0)]. *)
Definition det3 (t : Tetrahedron) : Q :=
  dot (cross (vsub (t1 t) (t0 t)) (vsub (t2 t) (t0 t))) (vsub (t3 t) (t0 t)).

(** A tetrahedron with its four vertices in the plane [z = 0]. *)
Definition flatTet : Tetrahedron :=
  mkTet (mkVec 0 0 0) (mkVec 1 0 0) (mkVec 0 1 0) (mkVec 1 1 0).

(** The plane [z = 0] with the half-space [z <= 0]. *)
Definition flatPlane : hPlane := (mkVec 0 0 1, 0).

(** A vertex of an output tetrahedron is either a vertex of the input
    that is not strictly positive, or a point of the plane. *)
Definition keptVertex (n : vector) (d : Q) (t : Tetrahedron) (C : ix -> Q)
    (x : point) : Prop :=
  (exists j, x = tget t j /\ C j <= 0) \/ dot x n == d.

(** The specification's words: the unsigned volume
    [|((t1 - t0) x (t2 - t0)) . (t3 - t0)| / 6] ... *)
Definition unsignedVolume (t : Tetrahedron) : Q :=
  Qabs (dot (cross (vsub (t1 t) (t0 t)) (vsub (t2 t) (t0 t))) (vsub (t3 t) (t0 t))) / 6.

(** ... the arithmetic mean of the four vertices ... *)
Definition vertexMean (t : Tetrahedron) : vector :=
  vdiv (vadd (t0 t) (vadd (t1 t) (vadd (t2 t) (t3 t)))) 4.

(** ... the sum of the volumes and the sum of the volume-weighted
    means. *)
Fixpoint sumVolumes (tets : list Tetrahedron) : Q :=
  match tets with
  | [] => 0
  | t :: rest => unsignedVolume t + sumVolumes rest
  end.

(** [sum_i V_i c_i] *)
Fixpoint sumMoments (tets : list Tetrahedron) : vector :=
  match tets with
  | [] => vzero
  | t :: rest => vadd (vscale (unsignedVolume t) (vertexMean t)) (sumMoments rest)
  end.

(** The specification's words.  [pointAt] is the point with a given
    label, [faceMean] the arithmetic mean of the vertices of a face,
    [faceTets] the tetrahedra one face contributes. *)
Definition pointAt (points : pointField) (l : label) : point := nth l points vzero.

(** The arithmetic mean of the vertices of [f]. *)
Definition faceMean (f : face) (points : pointField) : vector :=
  vdiv (fold_left vadd (map (pointAt points) f) vzero)
       (inject_Z (Z.of_nat (length f))).

(** One tetrahedron [(v0, v1, v2, xC)] for a triangle, otherwise the
    fan [(v_i, v_(i+1 mod k), faceCentroid, xC)], all translated by
    [- xT]. *)
Definition faceTets (points : pointField) (xC xT : point) (f : face)
    : list Tetrahedron :=
  let v := fun i => vsub (pointAt points (nth i f 0%nat)) xT in
  if Nat.eqb (length f) 3
  then [mkTet (v 0%nat) (v 1%nat) (v 2%nat) (vsub xC xT)]
  else map (fun i => mkTet (v i) (v ((i + 1) mod length f))
                           (vsub (faceMean f points) xT) (vsub xC xT))
           (seq 0 (length f)).

(** Every face label of the cell and every point label of its faces is
    in range. *)
Definition cellInRange (mesh : polyMesh) (points : pointField) (dCell : cell) : Prop :=
  forall fl, In fl dCell ->
    (fl < length (faces mesh))%nat /\
    forall l, In l (nth fl (faces mesh) []) -> (l < length points)%nat.

(** [t] is [t0] with every vertex shifted by [- xT]. *)
Definition shifted (xT : point) (t t0 : Tetrahedron) : Prop := teq t (tshift xT t0).

(** [v] is [v0] shifted by [- xT]. *)
Definition vshifted (xT : point) (v v0 : vector) : Prop := veq v (vsub v0 xT).

(** Two optional results are related when both are undefined or both
    are defined and related. *)
Definition orel {A B : Type} (R : A -> B -> Prop) (o : option A) (o' : option B)
    : Prop :=
  match o, o' with
  | Some a, Some b => R a b
  | None, None => True
  | _, _ => False
  end.

(** The relation between the states of two runs of [decomposeCell],
    one with origin [xT] and one with origin [0]. *)
Definition slots_rel (xT : point) (s s' : slots) : Prop :=
  orel (vshifted xT) (s0 s) (s0 s') /\ orel (vshifted xT) (s1 s) (s1 s') /\
  orel (vshifted xT) (s2 s) (s2 s') /\ orel (vshifted xT) (s3 s) (s3 s').

Definition state_rel (xT : point) (st st' : slots * list Tetrahedron) : Prop :=
  slots_rel xT (fst st) (fst st') /\ Forall2 (shifted xT) (snd st) (snd st').

(** Modelled from the spec: [VSMALL] is not defined in the header; the
    spec describes it as a tiny positive floor, about the smallest
    normalised positive float.  The value taken here is that of
    OpenFOAM's double-precision build, [1e-300]. *)
Definition VSMALL_double : Q := 1 # (10 ^ 300).


(** The first moment [tV * tC] that one tetrahedron adds to the
    [centre] accumulator of [getVolumeAndCentre]. *)
Definition tetMoment (t : Tetrahedron) : vector :=
  vscale (tetVolume t) (tetCentre t).

Definition moment4 (a b c d : point) : vector := tetMoment (mkTet a b c d).

(** The [centre] accumulator of [getVolumeAndCentre] after its loop,
    before the division. *)
Definition momentSum (tets : list Tetrahedron) : vector :=
  snd (fold_left accumulate tets (0, vzero)).

(** The number of tetrahedra one face contributes to the apex fan. *)
Definition faceCount (f : face) : nat :=
  if Nat.eqb (length f) 3 then 1%nat else length f.

(** The test of the scan for the isolated fourth point. *)
Definition isolated (f0 f1 f2 l : label) : bool :=
  negb (Nat.eqb l f0) && negb (Nat.eqb l f1) && negb (Nat.eqb l f2).

(** The unit cube twice: the second cell lists the six faces in the
    reverse order. *)
Definition twoCubes : polyMesh :=
  mkMesh (faces cubeMesh) [[0; 1; 2; 3; 4; 5]; [5; 4; 3; 2; 1; 0]]%nat.

(** ** The same lines in the arithmetic of the code

    The development reads [scalar] as an exact rational.  The two
    definitions below read the distance computation and the four-line
    weight block in IEEE binary64 instead, the [scalar] of a
    double-precision build; they serve to show where a statement about
    exact values stops being true of the rounded ones. *)

Definition vector64 : Type := (PrimFloat.float * PrimFloat.float * PrimFloat.float)%type.

(** [(p & n) - d] *)
Definition distance64 (n : vector64) (d : PrimFloat.float) (p : vector64)
    : PrimFloat.float :=
  let '(px, py, pz) := p in
  let '(nx, ny, nz) := n in
  PrimFloat.sub
    (PrimFloat.add (PrimFloat.add (PrimFloat.mul px nx) (PrimFloat.mul py ny))
                   (PrimFloat.mul pz nz))
    d.

(** [invCDiff = 1.0/(Cp - Cq); w0 = -Cq*invCDiff; w1 = +Cp*invCDiff] *)
Definition edgeWeights64 (Cp Cq : PrimFloat.float) : PrimFloat.float * PrimFloat.float :=
  let invCDiff := PrimFloat.div PrimFloat.one (PrimFloat.sub Cp Cq) in
  (PrimFloat.mul (PrimFloat.opp Cq) invCDiff, PrimFloat.mul Cp invCDiff).

(** Two binary64 coordinates used below: [-2^-70] and [-5]. *)
Module Binary64.
Import PrimFloat.
Definition minusTiny : float := (-0x1p-70)%float.
Definition minusFive : float := (-5)%float.
End Binary64.

(** Four coplanar points: the cell of [tetMesh] on them is flat. *)
Definition flatPoints : pointField :=
  [mkVec 0 0 0; mkVec 1 0 0; mkVec 0 1 0; mkVec 1 1 0].

(** * Properties *)

(** ** Scalars and vectors *)

Lemma Qltb_true (x y : Q) : Qltb x y = true <-> x < y.
Proof.
  unfold Qltb. rewrite Qlt_alt. destruct (x ?= y); split; congruence.
Qed.

Lemma Qltb_false (x y : Q) : Qltb x y = false <-> y <= x.
Proof.
  split; intro H.
  - apply Qnot_lt_le. intro L. apply Qltb_true in L. congruence.
  - destruct (Qltb x y) eqn:E; [| reflexivity].
    apply Qltb_true in E. exfalso. apply (Qlt_not_le _ _ E H).
Qed.

(** The three-way test of the classification loop. *)
Lemma sign_cases (x : Q) :
  (Qltb 0 x = true /\ Qltb x 0 = false /\ 0 < x) \/
  (Qltb 0 x = false /\ Qltb x 0 = true /\ x < 0) \/
  (Qltb 0 x = false /\ Qltb x 0 = false /\ x == 0).
Proof.
  destruct (Qltb 0 x) eqn:E1; destruct (Qltb x 0) eqn:E2;
    try apply Qltb_true in E1; try apply Qltb_true in E2;
    try apply Qltb_false in E1; try apply Qltb_false in E2.
  - exfalso. lra.
  - left. auto.
  - right. left. auto.
  - right. right. repeat split. lra.
Qed.

Lemma veq_refl (a : vector) : veq a a.
Proof. repeat split; reflexivity. Qed.

Lemma veq_sym (a b : vector) : veq a b -> veq b a.
Proof. intros (H1 & H2 & H3). repeat split; symmetry; assumption. Qed.

Lemma veq_trans (a b c : vector) : veq a b -> veq b c -> veq a c.
Proof.
  intros (H1 & H2 & H3) (K1 & K2 & K3).
  repeat split; etransitivity; eassumption.
Qed.

#[global] Instance veq_Equivalence : Equivalence veq.
Proof.
  split.
  - exact veq_refl.
  - exact veq_sym.
  - exact veq_trans.
Qed.

#[global] Instance vadd_Proper : Proper (veq ==> veq ==> veq) vadd.
Proof.
  intros a a' (H1 & H2 & H3) b b' (K1 & K2 & K3).
  unfold vadd, veq; cbn [vx vy vz]. rewrite H1, H2, H3, K1, K2, K3. repeat split; reflexivity.
Qed.

#[global] Instance vsub_Proper : Proper (veq ==> veq ==> veq) vsub.
Proof.
  intros a a' (H1 & H2 & H3) b b' (K1 & K2 & K3).
  unfold vsub, veq; cbn [vx vy vz]. rewrite H1, H2, H3, K1, K2, K3. repeat split; reflexivity.
Qed.

#[global] Instance vscale_Proper : Proper (Qeq ==> veq ==> veq) vscale.
Proof.
  intros s s' Hs a a' (H1 & H2 & H3).
  unfold vscale, veq; cbn [vx vy vz]. rewrite Hs, H1, H2, H3. repeat split; reflexivity.
Qed.

#[global] Instance vdiv_Proper : Proper (veq ==> Qeq ==> veq) vdiv.
Proof.
  intros a a' (H1 & H2 & H3) s s' Hs.
  unfold vdiv, veq; cbn [vx vy vz]. rewrite Hs, H1, H2, H3. repeat split; reflexivity.
Qed.

#[global] Instance dot_Proper : Proper (veq ==> veq ==> Qeq) dot.
Proof.
  intros a a' (H1 & H2 & H3) b b' (K1 & K2 & K3).
  unfold dot. rewrite H1, H2, H3, K1, K2, K3. reflexivity.
Qed.

#[global] Instance vol4_Proper : Proper (veq ==> veq ==> veq ==> veq ==> Qeq) vol4.
Proof.
  intros a a' (A1 & A2 & A3) b b' (B1 & B2 & B3) c c' (C1 & C2 & C3)
         d d' (D1 & D2 & D3).
  unfold vol4, tetVolume, dot, cross, vsub; cbn [vx vy vz t0 t1 t2 t3].
  rewrite A1, A2, A3, B1, B2, B3, C1, C2, C3, D1, D2, D3. reflexivity.
Qed.

Lemma teq_refl (t : Tetrahedron) : teq t t.
Proof. repeat split; reflexivity. Qed.

Lemma tetVolume_teq (t t' : Tetrahedron) : teq t t' -> tetVolume t == tetVolume t'.
Proof.
  destruct t, t'. intros (H0 & H1 & H2 & H3); cbn in *.
  change (vol4 t4 t5 t6 t7 == vol4 t8 t9 t10 t11).
  rewrite H0, H1, H2, H3. reflexivity.
Qed.

Lemma tetVolume_nonneg (t : Tetrahedron) : 0 <= tetVolume t.
Proof. apply Qabs_nonneg. Qed.

(** ** Permuting the corners of a tetrahedron *)

Lemma Qabs_either (x y : Q) : x == y \/ x == - y -> Qabs x == Qabs y.
Proof.
  intros [H | H]; rewrite H; [reflexivity | apply Qabs_opp].
Qed.

Lemma tetVolume_perm (t : Tetrahedron) (i j k l : ix) :
  covers [i; j; k; l] = true ->
  tetVolume t == vol4 (tget t i) (tget t j) (tget t k) (tget t l).
Proof.
  destruct t as [[a1 a2 a3] [b1 b2 b3] [c1 c2 c3] [d1 d2 d3]].
  destruct i, j, k, l; intro H; try discriminate H; cbn [tget t0 t1 t2 t3];
    unfold vol4, tetVolume, dot, cross, vsub; cbn [vx vy vz t0 t1 t2 t3];
    apply Qabs_either; ((left; ring) || (right; ring)).
Qed.

Lemma vol_corners (X : Tetrahedron) (i j k l : ix) (A B C D : point) :
  covers [i; j; k; l] = true ->
  corners X i j k l A B C D ->
  tetVolume X == vol4 A B C D.
Proof.
  intros Hc (HA & HB & HC & HD).
  rewrite (tetVolume_perm X i j k l Hc), HA, HB, HC, HD. reflexivity.
Qed.

Lemma covers_id : covers [i0; i1; i2; i3] = true.
Proof. reflexivity. Qed.

(** ** Volumes of the pieces cut off along edges *)

Lemma Qabs_scale (x f d : Q) :
  0 <= f -> x == f * d \/ x == - (f * d) -> Qabs x == f * Qabs d.
Proof.
  intros Hf H. rewrite (Qabs_either _ _ H), Qabs_Qmult, (Qabs_pos f Hf). reflexivity.
Qed.

Ltac nonneg :=
  repeat (apply Qmult_le_0_compat); lra.

(** Proves [vol4 ... == f * vol4 ...] when the determinants differ by
    the factor [f] or [- f]. *)
Ltac vol_factor :=
  unfold vol4, tetVolume; apply Qabs_scale;
  [ nonneg
  | unfold lerp, dot, cross, vsub, vadd, vscale; cbn [vx vy vz t0 t1 t2 t3];
    ((left; ring) || (right; ring)) ].

Section Pieces.

Variables P0 P1 P2 N : point.
Variables a0 a1 a2 : Q.
Hypothesis Ha0 : 0 < a0 < 1.
Hypothesis Ha1 : 0 < a1 < 1.
Hypothesis Ha2 : 0 < a2 < 1.

Let I0 := lerp a0 P0 N.
Let I1 := lerp a1 P1 N.
Let I2 := lerp a2 P2 N.

(** [+++-]: the corner at [N]. *)
Lemma corner_volume :
  vol4 I0 I1 I2 N == (a0 * a1 * a2) * vol4 P0 P1 P2 N.
Proof. subst I0 I1 I2. vol_factor. Qed.

(** [+---] seen from the other side: the three tetrahedra of the
    truncated part. *)
Lemma frustum_volume_1 :
  vol4 P0 P1 P2 I0 == (1 - a0) * vol4 P0 P1 P2 N.
Proof. subst I0. vol_factor. Qed.

Lemma frustum_volume_2 :
  vol4 I0 P1 P2 I1 == (a0 * (1 - a1)) * vol4 P0 P1 P2 N.
Proof. subst I0 I1. vol_factor. Qed.

Lemma frustum_volume_3 :
  vol4 P2 I1 I2 I0 == (a0 * a1 * (1 - a2)) * vol4 P0 P1 P2 N.
Proof. subst I0 I1 I2. vol_factor. Qed.

Lemma pieces31 :
  vol4 I0 I1 I2 N + (vol4 P0 P1 P2 I0 + vol4 I0 P1 P2 I1 + vol4 P2 I1 I2 I0)
  == vol4 P0 P1 P2 N.
Proof.
  rewrite corner_volume, frustum_volume_1, frustum_volume_2, frustum_volume_3.
  ring.
Qed.

End Pieces.

Section Pieces22.

Variables P0 P1 N0 N1 : point.
Variables a00 a10 a01 a11 : Q.
Hypothesis Ha00 : 0 < a00 < 1.
Hypothesis Ha10 : 0 < a10 < 1.
Hypothesis Ha01 : 0 < a01 < 1.
Hypothesis Ha11 : 0 < a11 < 1.

(** [Iij] lies on the edge from [Pi] to [Nj]. *)
Let I00 := lerp a00 P0 N0.
Let I10 := lerp a10 P1 N0.
Let I01 := lerp a01 P0 N1.
Let I11 := lerp a11 P1 N1.

Lemma prism_volume_1 :
  vol4 I01 I10 N0 N1 == (a01 * a10) * vol4 P0 P1 N0 N1.
Proof. subst I01 I10. vol_factor. Qed.

Lemma prism_volume_2 :
  vol4 N1 I11 I01 I10 == (a01 * a11 * (1 - a10)) * vol4 P0 P1 N0 N1.
Proof. subst I01 I10 I11. vol_factor. Qed.

Lemma prism_volume_3 :
  vol4 N0 I00 I10 I01 == (a00 * a10 * (1 - a01)) * vol4 P0 P1 N0 N1.
Proof. subst I00 I01 I10. vol_factor. Qed.

Lemma prism_volume_1' :
  vol4 P0 P1 I10 I01 == ((1 - a10) * (1 - a01)) * vol4 P0 P1 N0 N1.
Proof. subst I01 I10. vol_factor. Qed.

Lemma prism_volume_2' :
  vol4 P1 I11 I10 I01 == (a01 * (1 - a10) * (1 - a11)) * vol4 P0 P1 N0 N1.
Proof. subst I01 I10 I11. vol_factor. Qed.

Lemma prism_volume_3' :
  vol4 P0 I00 I01 I10 == (a10 * (1 - a00) * (1 - a01)) * vol4 P0 P1 N0 N1.
Proof. subst I00 I01 I10. vol_factor. Qed.

Lemma pieces22 :
  (vol4 I01 I10 N0 N1 + vol4 N1 I11 I01 I10 + vol4 N0 I00 I10 I01)
  + (vol4 P0 P1 I10 I01 + vol4 P1 I11 I10 I01 + vol4 P0 I00 I01 I10)
  == vol4 P0 P1 N0 N1.
Proof.
  rewrite prism_volume_1, prism_volume_2, prism_volume_3,
          prism_volume_1', prism_volume_2', prism_volume_3'.
  ring.
Qed.

End Pieces22.

Section Pieces211.

Variables P0 P1 N Z : point.
Variables a0 a1 : Q.
Hypothesis Ha0 : 0 < a0 < 1.
Hypothesis Ha1 : 0 < a1 < 1.

Let I0 := lerp a0 P0 N.
Let I1 := lerp a1 P1 N.

Lemma wedge_volume :
  vol4 I0 I1 N Z == (a0 * a1) * vol4 P0 P1 N Z.
Proof. subst I0 I1. vol_factor. Qed.

Lemma pyramid_volume_1 :
  vol4 P0 P1 I0 Z == (1 - a0) * vol4 P0 P1 N Z.
Proof. subst I0. vol_factor. Qed.

Lemma pyramid_volume_2 :
  vol4 I1 Z P1 I0 == (a0 * (1 - a1)) * vol4 P0 P1 N Z.
Proof. subst I0 I1. vol_factor. Qed.

Lemma pieces211 :
  vol4 I0 I1 N Z + (vol4 P0 P1 I0 Z + vol4 I1 Z P1 I0) == vol4 P0 P1 N Z.
Proof.
  rewrite wedge_volume, pyramid_volume_1, pyramid_volume_2. ring.
Qed.

End Pieces211.

Section Pieces112.

Variables P N Z0 Z1 : point.
Variable a : Q.
Hypothesis Ha : 0 < a < 1.

Let I := lerp a P N.

Lemma sliver_volume :
  vol4 I N Z0 Z1 == a * vol4 P N Z0 Z1.
Proof. subst I. vol_factor. Qed.

Lemma sliver_volume' :
  vol4 P I Z0 Z1 == (1 - a) * vol4 P N Z0 Z1.
Proof. subst I. vol_factor. Qed.

Lemma pieces112 :
  vol4 I N Z0 Z1 + vol4 P I Z0 Z1 == vol4 P N Z0 Z1.
Proof.
  rewrite sliver_volume, sliver_volume'. ring.
Qed.

End Pieces112.

(** ** The edge intersection point *)

Lemma edgeWeights_spec (Cp Cq : Q) :
  0 < Cp -> Cq < 0 ->
  let w0 := fst (edgeWeights Cp Cq) in
  let w1 := snd (edgeWeights Cp Cq) in
  w0 == - Cq / (Cp - Cq) /\ w1 == Cp / (Cp - Cq) /\
  w0 + w1 == 1 /\ 0 < w0 < 1 /\ 0 < w1 < 1.
Proof.
  intros Hp Hq. cbn [edgeWeights fst snd].
  assert (Hd : 0 < Cp - Cq) by lra.
  assert (Hi : 0 < 1 / (Cp - Cq)).
  { unfold Qdiv. rewrite Qmult_1_l. apply Qinv_lt_0_compat. exact Hd. }
  assert (Hs : - Cq * (1 / (Cp - Cq)) + Cp * (1 / (Cp - Cq)) == 1).
  { field. lra. }
  assert (H0 : 0 < - Cq * (1 / (Cp - Cq))).
  { apply Qmult_lt_0_compat; lra. }
  assert (H1 : 0 < Cp * (1 / (Cp - Cq))).
  { apply Qmult_lt_0_compat; lra. }
  repeat split; try lra; field; lra.
Qed.

Lemma edgeCut_lerp (Cp Cq : Q) (P N : point) :
  0 < Cp -> Cq < 0 ->
  veq (edgeCut Cp Cq P N) (lerp (fst (edgeWeights Cp Cq)) P N).
Proof.
  intros Hp Hq.
  unfold edgeCut, lerp, edgeWeights, vadd, vscale, veq; cbn [fst snd vx vy vz].
  repeat split; field; lra.
Qed.

(** Seen from the opposing half-space the same edge is cut at the same
    point. *)
Lemma edgeCut_lerp_opp (Cp Cq Cp' Cq' : Q) (P N : point) :
  0 < Cp -> Cq < 0 -> Cp' == - Cp -> Cq' == - Cq ->
  veq (edgeCut Cq' Cp' N P) (lerp (fst (edgeWeights Cp Cq)) P N).
Proof.
  intros Hp Hq Ep Eq.
  unfold edgeCut, lerp, edgeWeights, vadd, vscale, veq; cbn [fst snd vx vy vz].
  rewrite Ep, Eq. repeat split; field; lra.
Qed.

Lemma edgeFraction_range (Cp Cq : Q) :
  0 < Cp -> Cq < 0 -> 0 < fst (edgeWeights Cp Cq) < 1.
Proof.
  intros Hp Hq. apply (edgeWeights_spec Cp Cq Hp Hq).
Qed.

(** ** The classification loop *)

Lemma classifyStep_cases (C : ix -> Q) (k : classes) (i : ix) :
  (0 < C i /\ classifyStep C k i = mkClasses (pos k ++ [i]) (neg k) (zero k)) \/
  (C i < 0 /\ classifyStep C k i = mkClasses (pos k) (neg k ++ [i]) (zero k)) \/
  (C i == 0 /\ classifyStep C k i = mkClasses (pos k) (neg k) (zero k ++ [i])).
Proof.
  unfold classifyStep.
  destruct (sign_cases (C i)) as [(A1 & A2 & A) | [(A1 & A2 & A) | (A1 & A2 & A)]];
    rewrite A1, ?A2; auto.
Qed.

Lemma classify_classified (C : ix -> Q) : classified C (classify C).
Proof.
  unfold classify; cbn [fold_left].
  destruct (classifyStep_cases C (mkClasses [] [] []) i0)
    as [(A & ->) | [(A & ->) | (A & ->)]]; cbn [pos neg zero app];
  match goal with |- context [classifyStep C ?k i1] =>
    destruct (classifyStep_cases C k i1)
      as [(B & ->) | [(B & ->) | (B & ->)]]; cbn [pos neg zero app] end;
  match goal with |- context [classifyStep C ?k i2] =>
    destruct (classifyStep_cases C k i2)
      as [(D & ->) | [(D & ->) | (D & ->)]]; cbn [pos neg zero app] end;
  match goal with |- context [classifyStep C ?k i3] =>
    destruct (classifyStep_cases C k i3)
      as [(E & ->) | [(E & ->) | (E & ->)]]; cbn [pos neg zero app] end;
  (split; cbn [pos neg zero app]; [ repeat constructor; assumption .. | reflexivity ]).
Qed.

Lemma Qltb_opp (x x' : Q) :
  x' == - x -> Qltb 0 x' = Qltb x 0 /\ Qltb x' 0 = Qltb 0 x.
Proof.
  intro H.
  destruct (sign_cases x) as [(A1 & A2 & A) | [(A1 & A2 & A) | (A1 & A2 & A)]];
    rewrite A1, A2; split;
    first [ apply Qltb_true; lra | apply Qltb_false; lra ].
Qed.

Lemma classifyStep_opp (C C' : ix -> Q) (k : classes) (i : ix) :
  C' i == - C i ->
  classifyStep C' (swapped k) i = swapped (classifyStep C k i).
Proof.
  intro H. unfold classifyStep.
  destruct (Qltb_opp _ _ H) as [-> ->].
  destruct (sign_cases (C i)) as [(A1 & A2 & A) | [(A1 & A2 & A) | (A1 & A2 & A)]];
    rewrite A1, A2; reflexivity.
Qed.

Lemma classify_opp (C C' : ix -> Q) :
  (forall i, C' i == - C i) ->
  classify C' = swapped (classify C).
Proof.
  intro H. unfold classify.
  change (mkClasses [] [] []) with (swapped (mkClasses [] [] [])) at 1.
  generalize (mkClasses [] [] []).
  induction [i0; i1; i2; i3] as [| i l IH]; intro k; cbn [fold_left].
  - reflexivity.
  - rewrite (classifyStep_opp C C' k i (H i)). apply IH.
Qed.

Lemma distance_opposite (h : hPlane) (t : Tetrahedron) (i : ix) :
  distance (opposite h) t i == - distance h t i.
Proof.
  unfold distance, opposite, dot, vscale; cbn [fst snd vx vy vz]. ring.
Qed.

(** ** Aggregated volume of explicit lists *)

Lemma getVolume_volumeSum (VSMALL : Q) (tets : list Tetrahedron) :
  fst (getVolumeAndCentre VSMALL tets) = volumeSum tets.
Proof.
  unfold getVolumeAndCentre, volumeSum.
  destruct (fold_left accumulate tets (0, vzero)); reflexivity.
Qed.

Lemma volumeSum_0 : volumeSum [] == 0.
Proof. reflexivity. Qed.

Lemma volumeSum_1 (a : Tetrahedron) : volumeSum [a] == tetVolume a.
Proof. unfold volumeSum; cbn [fold_left accumulate fst snd]. ring. Qed.

Lemma volumeSum_2 (a b : Tetrahedron) :
  volumeSum [a; b] == tetVolume a + tetVolume b.
Proof. unfold volumeSum; cbn [fold_left accumulate fst snd]. ring. Qed.

Lemma volumeSum_3 (a b c : Tetrahedron) :
  volumeSum [a; b; c] == tetVolume a + tetVolume b + tetVolume c.
Proof. unfold volumeSum; cbn [fold_left accumulate fst snd]. ring. Qed.

(** ** Conservation of volume, case by case *)

Section ByIndex.

Variable T : Tetrahedron.

Lemma split31_ix (X Y Z W : Tetrahedron) (p0 p1 p2 n0 : ix) (a0 a1 a2 : Q) :
  covers [p0; p1; p2; n0] = true ->
  0 < a0 < 1 -> 0 < a1 < 1 -> 0 < a2 < 1 ->
  let P0 := tget T p0 in
  let P1 := tget T p1 in
  let P2 := tget T p2 in
  let N := tget T n0 in
  let I0 := lerp a0 P0 N in
  let I1 := lerp a1 P1 N in
  let I2 := lerp a2 P2 N in
  corners X p0 p1 p2 n0 I0 I1 I2 N ->
  corners Y p0 p1 p2 n0 P0 P1 P2 I0 ->
  corners Z i0 i1 i2 i3 I0 P1 P2 I1 ->
  corners W i0 i1 i2 i3 P2 I1 I2 I0 ->
  tetVolume X + (tetVolume Y + tetVolume Z + tetVolume W) == tetVolume T.
Proof.
  intros Hc H0 H1 H2 P0 P1 P2 N I0 I1 I2 HX HY HZ HW.
  rewrite (vol_corners _ _ _ _ _ _ _ _ _ Hc HX), (vol_corners _ _ _ _ _ _ _ _ _ Hc HY),
          (vol_corners _ _ _ _ _ _ _ _ _ covers_id HZ),
          (vol_corners _ _ _ _ _ _ _ _ _ covers_id HW),
          (tetVolume_perm T _ _ _ _ Hc).
  apply pieces31; assumption.
Qed.

Lemma split22_ix (X Y Z X' Y' Z' : Tetrahedron) (p0 p1 n0 n1 : ix)
    (a00 a10 a01 a11 : Q) :
  covers [p0; p1; n0; n1] = true ->
  0 < a00 < 1 -> 0 < a10 < 1 -> 0 < a01 < 1 -> 0 < a11 < 1 ->
  let P0 := tget T p0 in
  let P1 := tget T p1 in
  let N0 := tget T n0 in
  let N1 := tget T n1 in
  let I00 := lerp a00 P0 N0 in
  let I10 := lerp a10 P1 N0 in
  let I01 := lerp a01 P0 N1 in
  let I11 := lerp a11 P1 N1 in
  corners X p0 p1 n0 n1 I01 I10 N0 N1 ->
  corners Y i0 i1 i2 i3 N1 I11 I01 I10 ->
  corners Z i0 i1 i2 i3 N0 I00 I10 I01 ->
  corners X' p0 p1 n0 n1 P0 P1 I10 I01 ->
  corners Y' i0 i1 i2 i3 P1 I11 I10 I01 ->
  corners Z' i0 i1 i2 i3 P0 I00 I01 I10 ->
  (tetVolume X + tetVolume Y + tetVolume Z)
  + (tetVolume X' + tetVolume Y' + tetVolume Z') == tetVolume T.
Proof.
  intros Hc H00 H10 H01 H11 P0 P1 N0 N1 I00 I10 I01 I11 HX HY HZ HX' HY' HZ'.
  rewrite (vol_corners _ _ _ _ _ _ _ _ _ Hc HX), (vol_corners _ _ _ _ _ _ _ _ _ Hc HX'),
          (vol_corners _ _ _ _ _ _ _ _ _ covers_id HY),
          (vol_corners _ _ _ _ _ _ _ _ _ covers_id HZ),
          (vol_corners _ _ _ _ _ _ _ _ _ covers_id HY'),
          (vol_corners _ _ _ _ _ _ _ _ _ covers_id HZ'),
          (tetVolume_perm T _ _ _ _ Hc).
  apply pieces22; assumption.
Qed.

Lemma split211_ix (X X' Y' : Tetrahedron) (p0 p1 n0 z0 : ix) (a0 a1 : Q) :
  covers [p0; p1; n0; z0] = true ->
  0 < a0 < 1 -> 0 < a1 < 1 ->
  let P0 := tget T p0 in
  let P1 := tget T p1 in
  let N := tget T n0 in
  let Z := tget T z0 in
  let I0 := lerp a0 P0 N in
  let I1 := lerp a1 P1 N in
  corners X p0 p1 n0 z0 I0 I1 N Z ->
  corners X' p0 p1 n0 z0 P0 P1 I0 Z ->
  corners Y' i0 i1 i2 i3 I1 Z P1 I0 ->
  tetVolume X + (tetVolume X' + tetVolume Y') == tetVolume T.
Proof.
  intros Hc H0 H1 P0 P1 N Z I0 I1 HX HX' HY'.
  rewrite (vol_corners _ _ _ _ _ _ _ _ _ Hc HX), (vol_corners _ _ _ _ _ _ _ _ _ Hc HX'),
          (vol_corners _ _ _ _ _ _ _ _ _ covers_id HY'),
          (tetVolume_perm T _ _ _ _ Hc).
  apply pieces211; assumption.
Qed.

Lemma split112_ix (X X' : Tetrahedron) (p n z0 z1 : ix) (a : Q) :
  covers [p; n; z0; z1] = true ->
  0 < a < 1 ->
  let P := tget T p in
  let N := tget T n in
  let I := lerp a P N in
  corners X p n z0 z1 I N (tget T z0) (tget T z1) ->
  corners X' p n z0 z1 P I (tget T z0) (tget T z1) ->
  tetVolume X + tetVolume X' == tetVolume T.
Proof.
  intros Hc Ha P N I HX HX'.
  rewrite (vol_corners _ _ _ _ _ _ _ _ _ Hc HX), (vol_corners _ _ _ _ _ _ _ _ _ Hc HX'),
          (tetVolume_perm T _ _ _ _ Hc).
  apply pieces112; assumption.
Qed.

End ByIndex.

(** Unfolds one run of [splitCases] on classes of known shape, leaving
    [tget], [tset] and [edgeCut] in place. *)
Ltac run_split :=
  cbv [splitCases pos neg zero length Nat.eqb forUpTo seq fold_left at_ nth
       cutInPlace cutInto setTetra tetra intp divisions fst snd app setIntp
       Nat.add edgePoint swapped].

Ltac corner_tac HC' :=
  lazymatch goal with
  | |- veq (edgeCut ?a ?b ?P ?N) (lerp (fst (edgeWeights ?a ?b)) ?P ?N) =>
      apply edgeCut_lerp; assumption
  | |- veq (edgeCut ?b' ?a' ?N ?P) (lerp (fst (edgeWeights ?a ?b)) ?P ?N) =>
      apply (edgeCut_lerp_opp a b a' b' P N); [assumption | assumption | apply HC' | apply HC']
  | |- veq ?a ?a => reflexivity
  end.

Ltac corners_tac HC' :=
  lazymatch goal with
  | |- covers _ = true => reflexivity
  | |- _ < _ < _ => apply edgeFraction_range; assumption
  | |- corners _ _ _ _ _ _ _ _ _ =>
      unfold corners; cbn [tget tset t0 t1 t2 t3];
      refine (conj _ (conj _ (conj _ _))); corner_tac HC'
  end.

Section Conservation.

Variable T : Tetrahedron.
Variables C C' : ix -> Q.
Hypothesis HC' : forall i, C' i == - C i.

Lemma conserve31 (p0 p1 p2 n0 : ix) :
  covers [p0; p1; p2; n0] = true ->
  0 < C p0 -> 0 < C p1 -> 0 < C p2 -> C n0 < 0 ->
  volumeSum (fst (splitCases C (mkClasses [p0; p1; p2] [n0] []) T []))
  + volumeSum (fst (splitCases C' (mkClasses [n0] [p0; p1; p2] []) T []))
  == tetVolume T.
Proof.
  intros Hc H0 H1 H2 Hn. run_split.
  rewrite volumeSum_1, volumeSum_3.
  destruct p0, p1, p2, n0; try discriminate Hc;
    match type of Hc with
    | covers [?a; ?b; ?c; ?d] = true =>
        apply (split31_ix T _ _ _ _ a b c d
                 (fst (edgeWeights (C a) (C d)))
                 (fst (edgeWeights (C b) (C d)))
                 (fst (edgeWeights (C c) (C d))))
    end; corners_tac HC'.
Qed.

Lemma conserve22 (p0 p1 n0 n1 : ix) :
  covers [p0; p1; n0; n1] = true ->
  0 < C p0 -> 0 < C p1 -> C n0 < 0 -> C n1 < 0 ->
  volumeSum (fst (splitCases C (mkClasses [p0; p1] [n0; n1] []) T []))
  + volumeSum (fst (splitCases C' (mkClasses [n0; n1] [p0; p1] []) T []))
  == tetVolume T.
Proof.
  intros Hc H0 H1 Hn0 Hn1. run_split.
  rewrite !volumeSum_3.
  destruct p0, p1, n0, n1; try discriminate Hc;
    match type of Hc with
    | covers [?a; ?b; ?c; ?d] = true =>
        apply (split22_ix T _ _ _ _ _ _ a b c d
                 (fst (edgeWeights (C a) (C c)))
                 (fst (edgeWeights (C b) (C c)))
                 (fst (edgeWeights (C a) (C d)))
                 (fst (edgeWeights (C b) (C d))))
    end; corners_tac HC'.
Qed.

Lemma conserve211 (p0 p1 n0 z0 : ix) :
  covers [p0; p1; n0; z0] = true ->
  0 < C p0 -> 0 < C p1 -> C n0 < 0 ->
  volumeSum (fst (splitCases C (mkClasses [p0; p1] [n0] [z0]) T []))
  + volumeSum (fst (splitCases C' (mkClasses [n0] [p0; p1] [z0]) T []))
  == tetVolume T.
Proof.
  intros Hc H0 H1 Hn. run_split.
  rewrite volumeSum_1, volumeSum_2.
  destruct p0, p1, n0, z0; try discriminate Hc;
    match type of Hc with
    | covers [?a; ?b; ?c; ?d] = true =>
        apply (split211_ix T _ _ _ a b c d
                 (fst (edgeWeights (C a) (C c)))
                 (fst (edgeWeights (C b) (C c))))
    end; corners_tac HC'.
Qed.

Lemma conserve112 (p n z0 z1 : ix) :
  covers [p; n; z0; z1] = true ->
  0 < C p -> C n < 0 ->
  volumeSum (fst (splitCases C (mkClasses [p] [n] [z0; z1]) T []))
  + volumeSum (fst (splitCases C' (mkClasses [n] [p] [z0; z1]) T []))
  == tetVolume T.
Proof.
  intros Hc Hp Hn. run_split.
  rewrite !volumeSum_1.
  destruct p, n, z0, z1; try discriminate Hc;
    match type of Hc with
    | covers [?a; ?b; ?c; ?d] = true =>
        apply (split112_ix T _ _ a b c d (fst (edgeWeights (C a) (C b))))
    end; corners_tac HC'.
Qed.

End Conservation.

Lemma covers_rot (a b c d : ix) :
  covers [a; b; c; d] = true -> covers [b; c; d; a] = true.
Proof. destruct a, b, c, d; intro H; try discriminate H; reflexivity. Qed.

Lemma covers_rot3 (a b c d : ix) :
  covers [a; b; c; d] = true -> covers [b; c; a; d] = true.
Proof. destruct a, b, c, d; intro H; try discriminate H; reflexivity. Qed.

Ltac forall_inv :=
  repeat match goal with
         | H : Forall _ (_ :: _) |- _ =>
             let H1 := fresh "Hs" in
             pose proof (Forall_inv H) as H1; cbv beta in H1;
             apply Forall_inv_tail in H
         end.

(** For every outcome of the classification, the tetrahedra kept on the
    two sides of the plane have the volume of [T]; when all four
    vertices are on the plane nothing is kept on either side. *)
Lemma conservation_cases (T : Tetrahedron) (C C' : ix -> Q) (k : classes) :
  classified C k ->
  (forall i, C' i == - C i) ->
  (pos k = [] -> neg k = [] -> tetVolume T == 0) ->
  volumeSum (fst (splitCases C k T []))
  + volumeSum (fst (splitCases C' (swapped k) T []))
  == tetVolume T.
Proof.
  intros [Hp Hn Hz Hc] HC' Hflat.
  assert (HC : forall i, C i == - C' i) by (intro i; rewrite (HC' i); ring).
  destruct k as [ps ns zs]; unfold swapped; cbn [pos neg zero] in *.
  destruct ps as [| p0 [| p1 [| p2 [| p3 [| p4 ps]]]]];
    destruct ns as [| n0 [| n1 [| n2 [| n3 [| n4 ns]]]]];
    destruct zs as [| z0 [| z1 [| z2 [| z3 [| z4 zs]]]]];
    try discriminate Hc; cbn [app] in Hc; forall_inv;
    lazymatch goal with
    | |- volumeSum (fst (splitCases _ (mkClasses [_; _; _] [_] []) _ _)) + _ == _ =>
        apply (conserve31 T C C' HC'); assumption
    | |- volumeSum (fst (splitCases _ (mkClasses [_; _] [_; _] []) _ _)) + _ == _ =>
        apply (conserve22 T C C' HC'); assumption
    | |- volumeSum (fst (splitCases _ (mkClasses [_; _] [_] [_]) _ _)) + _ == _ =>
        apply (conserve211 T C C' HC'); assumption
    | |- volumeSum (fst (splitCases _ (mkClasses [_] [_] [_; _]) _ _)) + _ == _ =>
        apply (conserve112 T C C' HC'); assumption
    | |- volumeSum (fst (splitCases _ (mkClasses [_] [_; _; _] []) _ _)) + _ == _ =>
        rewrite Qplus_comm; apply (conserve31 T C' C HC);
        [ apply covers_rot; assumption
        | match goal with |- context [C' ?i] => pose proof (HC' i); lra end .. ]
    | |- volumeSum (fst (splitCases _ (mkClasses [_] [_; _] [_]) _ _)) + _ == _ =>
        rewrite Qplus_comm; apply (conserve211 T C' C HC);
        [ apply covers_rot3; assumption
        | match goal with |- context [C' ?i] => pose proof (HC' i); lra end .. ]
    | |- _ =>
        run_split; rewrite ?volumeSum_0, ?volumeSum_1;
        first [ ring | rewrite (Hflat eq_refl eq_refl); ring ]
    end.
Qed.

(** ** A tetrahedron lying in the plane *)

Lemma tetVolume_det3 (t : Tetrahedron) : tetVolume t = Qabs ((1 / 6) * det3 t).
Proof. reflexivity. Qed.

(** Cramer's rule for the three edge vectors at [t0]. *)
Lemma det3_normal (n : vector) (d : Q) (t : Tetrahedron) :
  let c := distance (n, d) t in
  let e1 := vsub (t1 t) (t0 t) in
  let e2 := vsub (t2 t) (t0 t) in
  let e3 := vsub (t3 t) (t0 t) in
  veq (vscale (det3 t) n)
      (vadd (vadd (vscale (c i1 - c i0) (cross e2 e3))
                  (vscale (c i2 - c i0) (cross e3 e1)))
            (vscale (c i3 - c i0) (cross e1 e2))).
Proof.
  unfold det3, distance, veq, dot, cross, vsub, vadd, vscale;
    cbn [fst snd tget vx vy vz].
  repeat split; ring.
Qed.

Lemma flat_volume (n : vector) (d : Q) (t : Tetrahedron) :
  ~ veq n vzero ->
  (forall i, distance (n, d) t i == 0) ->
  tetVolume t == 0.
Proof.
  intros Hn Hflat.
  assert (Hd : det3 t == 0).
  { destruct (det3_normal n d t) as (Ex & Ey & Ez).
    cbn [vscale vadd vx vy vz] in Ex, Ey, Ez.
    rewrite !Hflat in Ex, Ey, Ez.
    assert (Zx : det3 t * vx n == 0) by (rewrite Ex; ring).
    assert (Zy : det3 t * vy n == 0) by (rewrite Ey; ring).
    assert (Zz : det3 t * vz n == 0) by (rewrite Ez; ring).
    destruct (Qeq_dec (det3 t) 0) as [E | E]; [exact E | exfalso].
    apply Hn. unfold veq; cbn [vzero vx vy vz].
    repeat split.
    - destruct (Qmult_integral _ _ Zx); [contradiction | assumption].
    - destruct (Qmult_integral _ _ Zy); [contradiction | assumption].
    - destruct (Qmult_integral _ _ Zz); [contradiction | assumption]. }
  rewrite tetVolume_det3, Hd. reflexivity.
Qed.

Lemma classified_all_zero (C : ix -> Q) (k : classes) :
  classified C k -> pos k = [] -> neg k = [] -> forall i, C i == 0.
Proof.
  intros [_ _ Hz Hc] Ep En. rewrite Ep, En in Hc. cbn [app] in Hc.
  destruct (zero k) as [| z0 [| z1 [| z2 [| z3 [| z4 zs]]]]]; try discriminate Hc.
  forall_inv.
  destruct z0, z1, z2, z3; try discriminate Hc; intros []; assumption.
Qed.

Lemma splitRun_opposite (h : hPlane) (t : Tetrahedron) (buf : list Tetrahedron) :
  splitRun (opposite h) t buf
  = splitCases (distance (opposite h) t) (swapped (classify (distance h t))) t buf.
Proof.
  unfold splitRun. rewrite (classify_opp (distance h t)); [reflexivity |].
  apply distance_opposite.
Qed.

(** C1. Clipper conservation: for a plane with non-zero normal, the
    volumes [getVolumeAndCentre] reports for the tetrahedra kept by
    [splitAndDecompose] on the two opposing half-spaces add up to the
    volume of the clipped tetrahedron. *)
Theorem clipper_conservation (VSMALL : Q) (n : vector) (d : Q) (T : Tetrahedron) :
  ~ veq n vzero ->
  fst (getVolumeAndCentre VSMALL (splitAndDecompose (n, d) T []))
  + fst (getVolumeAndCentre VSMALL (splitAndDecompose (opposite (n, d)) T []))
  == fst (getVolumeAndCentre VSMALL [T]).
Proof.
  intro Hn.
  rewrite !getVolume_volumeSum, volumeSum_1.
  unfold splitAndDecompose. rewrite splitRun_opposite. unfold splitRun.
  apply conservation_cases.
  - apply classify_classified.
  - apply distance_opposite.
  - intros Ep En. apply (flat_volume n d T Hn).
    exact (classified_all_zero _ _ (classify_classified _) Ep En).
Qed.

Lemma clipper_conservation_witness :
  ~ veq (mkVec 1 0 0) vzero /\
  fst (getVolumeAndCentre (1 # 1000) (splitAndDecompose (mkVec 1 0 0, 1 # 2) unitTet []))
  + fst (getVolumeAndCentre (1 # 1000)
           (splitAndDecompose (opposite (mkVec 1 0 0, 1 # 2)) unitTet []))
  == fst (getVolumeAndCentre (1 # 1000) [unitTet]).
Proof.
  assert (Hn : ~ veq (mkVec 1 0 0) vzero).
  { unfold veq; cbn. intros (H & _). discriminate H. }
  split; [exact Hn |].
  exact (clipper_conservation (1 # 1000) (mkVec 1 0 0) (1 # 2) unitTet Hn).
Defined.

(** ** The output buffer *)

Lemma splitCases_append (C : ix -> Q) (k : classes) (t : Tetrahedron)
    (buf : list Tetrahedron) :
  fst (splitCases C k t buf) = buf ++ fst (splitCases C k t []).
Proof.
  unfold splitCases; cbv zeta.
  repeat match goal with
         | |- context [if Nat.eqb ?a ?b then _ else _] => destruct (Nat.eqb a b)
         end;
    cbn [fst app]; rewrite <- ?app_assoc; cbn [app];
    auto using app_nil_r.
Qed.

Lemma splitAndDecompose_append (h : hPlane) (t : Tetrahedron) (buf : list Tetrahedron) :
  splitAndDecompose h t buf = buf ++ splitAndDecompose h t [].
Proof. apply splitCases_append. Qed.


(** ** The two early exits *)

Lemma covers_In (l : list ix) (i : ix) : covers l = true -> In i l.
Proof.
  destruct l as [| a [| b [| c [| d [| e l]]]]]; intro H; try discriminate H.
  destruct a, b, c, d; try discriminate H; destruct i; cbn; tauto.
Qed.

Lemma classified_no_neg (C : ix -> Q) (k : classes) :
  classified C k -> (forall i, ~ C i < 0) -> neg k = [].
Proof.
  intros [_ Hn _ _] H. destruct (neg k) as [| n0 ns]; [reflexivity |].
  exfalso. apply (H n0). exact (Forall_inv Hn).
Qed.

Lemma classified_no_pos (C : ix -> Q) (k : classes) :
  classified C k -> (forall i, ~ 0 < C i) -> pos k = [].
Proof.
  intros [Hp _ _ _] H. destruct (pos k) as [| p0 ps]; [reflexivity |].
  exfalso. apply (H p0). exact (Forall_inv Hp).
Qed.

Lemma classified_some_neg (C : ix -> Q) (k : classes) (i : ix) :
  classified C k -> C i < 0 -> neg k <> [].
Proof.
  intros [Hp Hn Hz Hc] Hi E.
  pose proof (covers_In _ i Hc) as Hin. rewrite E in Hin. cbn [app] in Hin.
  apply in_app_or in Hin. destruct Hin as [Hin | Hin].
  - rewrite Forall_forall in Hp. specialize (Hp i Hin). lra.
  - rewrite Forall_forall in Hz. specialize (Hz i Hin). lra.
Qed.

Lemma splitCases_no_neg (C : ix -> Q) (k : classes) (t : Tetrahedron)
    (buf : list Tetrahedron) :
  neg k = [] -> fst (splitCases C k t buf) = buf.
Proof. intro E. unfold splitCases. rewrite E. reflexivity. Qed.

Lemma splitCases_no_pos (C : ix -> Q) (k : classes) (t : Tetrahedron)
    (buf : list Tetrahedron) :
  pos k = [] -> neg k <> [] -> fst (splitCases C k t buf) = buf ++ [t].
Proof.
  intros E N. unfold splitCases. rewrite E.
  destruct (neg k) as [| n0 ns]; [congruence | reflexivity].
Qed.

(** C3, as stated, fails: with all four vertices on the plane no vertex
    is strictly positive, yet nothing is appended, because the test
    [nNeg == 0] comes first. *)
Lemma trivial_cases_counterexample :
  (forall i, ~ 0 < distance flatPlane flatTet i) /\
  splitAndDecompose flatPlane flatTet [] <> [] ++ [flatTet].
Proof.
  split.
  - intros [] H; vm_compute in H; discriminate H.
  - vm_compute. discriminate.
Qed.

(** C3, amended. If no vertex is strictly negative nothing is appended;
    if no vertex is strictly positive and at least one is strictly
    negative, exactly the input tetrahedron is appended, unchanged. *)
Theorem trivial_cases (h : hPlane) (t : Tetrahedron) (buf : list Tetrahedron) :
  ((forall i, ~ distance h t i < 0) -> splitAndDecompose h t buf = buf) /\
  ((forall i, ~ 0 < distance h t i) -> (exists i, distance h t i < 0) ->
   splitAndDecompose h t buf = buf ++ [t]).
Proof.
  pose proof (classify_classified (distance h t)) as Hk.
  unfold splitAndDecompose, splitRun. split.
  - intro H. apply splitCases_no_neg. exact (classified_no_neg _ _ Hk H).
  - intros H [i Hi]. apply splitCases_no_pos.
    + exact (classified_no_pos _ _ Hk H).
    + exact (classified_some_neg _ _ i Hk Hi).
Qed.

(** The unit tetrahedron lies in [x <= 2] and touches no point of
    [x <= -1]. *)
Lemma trivial_cases_witness :
  splitAndDecompose (mkVec 1 0 0, -1) unitTet [] = [] /\
  splitAndDecompose (mkVec 1 0 0, 2) unitTet [] = [] ++ [unitTet].
Proof.
  split.
  - apply (proj1 (trivial_cases (mkVec 1 0 0, -1) unitTet [])).
    intros [] H; vm_compute in H; discriminate H.
  - apply (proj2 (trivial_cases (mkVec 1 0 0, 2) unitTet [])).
    + intros [] H; vm_compute in H; discriminate H.
    + exists i0. vm_compute. reflexivity.
Defined.

(** ** Case B: two positive and two negative vertices *)






(** ** Division sites *)

Lemma divisions_sites (C : ix -> Q) (k : classes) (t : Tetrahedron) :
  Forall (fun pq => In (fst pq) (pos k) /\ In (snd pq) (neg k))
         (divisions (snd (splitCases C k t []))).
Proof.
  destruct k as [ps ns zs].
  destruct ps as [| p0 [| p1 [| p2 [| p3 ps]]]];
    destruct ns as [| n0 [| n1 [| n2 [| n3 ns]]]];
    run_split;
    repeat (apply Forall_cons; [cbn [fst snd In]; tauto |]); apply Forall_nil.
Qed.

Lemma weights_of_site (Cp Cq : Q) :
  0 < Cp -> Cq < 0 ->
  0 < Cp - Cq /\
  fst (edgeWeights Cp Cq) + snd (edgeWeights Cp Cq) == 1 /\
  0 < fst (edgeWeights Cp Cq) < 1 /\
  0 < snd (edgeWeights Cp Cq) < 1.
Proof.
  intros Hp Hq.
  destruct (edgeWeights_spec Cp Cq Hp Hq) as (_ & _ & Hs & H0 & H1).
  repeat split; try lra; assumption.
Qed.

(** C4, as stated, fails in the arithmetic of the code.  For the plane
    [x <= 0] and an edge from [(1, 0, 0)] to [(-2^-70, 0, 0)] the two
    distances are [1 > 0] and [-2^-70 < 0], the divisor is positive,
    and the weight [w1] is exactly [1], not below it; for the edge from
    [(1, 0, 0)] to [(-5, 0, 0)] the two weights do not add up to one. *)
Lemma divisions_counterexample :
  let n := (PrimFloat.one, PrimFloat.zero, PrimFloat.zero) in
  let d := PrimFloat.zero in
  let Cp := distance64 n d (PrimFloat.one, PrimFloat.zero, PrimFloat.zero) in
  let Cq := distance64 n d (Binary64.minusTiny, PrimFloat.zero, PrimFloat.zero) in
  let Cr := distance64 n d (Binary64.minusFive, PrimFloat.zero, PrimFloat.zero) in
  PrimFloat.ltb PrimFloat.zero Cp = true /\
  PrimFloat.ltb Cq PrimFloat.zero = true /\
  PrimFloat.ltb Cr PrimFloat.zero = true /\
  PrimFloat.ltb PrimFloat.zero (PrimFloat.sub Cp Cq) = true /\
  PrimFloat.ltb (snd (edgeWeights64 Cp Cq)) PrimFloat.one = false /\
  PrimFloat.eqb (PrimFloat.add (fst (edgeWeights64 Cp Cr)) (snd (edgeWeights64 Cp Cr)))
                PrimFloat.one = false.
Proof.
  repeat split; vm_compute; reflexivity.
Qed.

(** C4, amended. Every division [1/(C[p] - C[q])] performed by
    [splitAndDecompose] has [p] among the positive and [q] among the
    negative vertices, so [C[p] > 0 > C[q]] and the divisor is strictly
    positive; in exact arithmetic the two weights then add up to one
    and lie strictly between zero and one.  No division happens unless
    there is a positive and a negative vertex. *)
Theorem divisions_safe (h : hPlane) (t : Tetrahedron) :
  let C := distance h t in
  let k := classify C in
  Forall (fun pq =>
            let p := fst pq in
            let q := snd pq in
            In p (pos k) /\ In q (neg k) /\
            0 < C p /\ C q < 0 /\ 0 < C p - C q /\
            fst (edgeWeights (C p) (C q)) + snd (edgeWeights (C p) (C q)) == 1 /\
            0 < fst (edgeWeights (C p) (C q)) < 1 /\
            0 < snd (edgeWeights (C p) (C q)) < 1)
         (splitDivisions h t) /\
  (splitDivisions h t <> [] -> pos k <> [] /\ neg k <> []).
Proof.
  intros C k.
  pose proof (classify_classified C) as [Hp Hn _ _]. fold k in Hp, Hn.
  pose proof (divisions_sites C k t) as Hs.
  unfold splitDivisions, splitRun. fold C. fold k.
  rewrite Forall_forall in Hp, Hn. split.
  - rewrite Forall_forall in *. intros [p q] Hin.
    destruct (Hs _ Hin) as [Ip Iq]. cbn [fst snd] in *.
    specialize (Hp p Ip). specialize (Hn q Iq). cbv beta in Hp, Hn.
    destruct (weights_of_site (C p) (C q) Hp Hn) as (Hd & Hsum & H0 & H1).
    repeat split; solve [assumption | apply H0 | apply H1].
  - intro Hne. destruct (divisions (snd (splitCases C k t []))) as [| [p q] l];
      [congruence |].
    destruct (Forall_inv Hs) as [Ip Iq]. cbn [fst snd] in *.
    split; intro E; rewrite E in *; contradiction.
Qed.

(** ** Everything kept lies in the closed negative half-space *)

Lemma edgeCut_on_plane (Cp Cq : Q) (P N n : vector) (d : Q) :
  Cp == dot P n - d -> Cq == dot N n - d -> 0 < Cp -> Cq < 0 ->
  dot (edgeCut Cp Cq P N) n == d.
Proof.
  intros Ep Eq Hp Hq.
  assert (E1 : dot P n == Cp + d) by (rewrite Ep; ring).
  assert (E2 : dot N n == Cq + d) by (rewrite Eq; ring).
  assert (L : dot (edgeCut Cp Cq P N) n
              == fst (edgeWeights Cp Cq) * dot P n + snd (edgeWeights Cp Cq) * dot N n).
  { unfold edgeCut, edgeWeights, dot, vadd, vscale; cbn [fst snd vx vy vz]. ring. }
  rewrite L, E1, E2. unfold edgeWeights; cbn [fst snd]. field. lra.
Qed.

Section Kept.

Variables (n : vector) (d : Q) (t : Tetrahedron) (C : ix -> Q).
Hypothesis HC : forall i, C i == dot (tget t i) n - d.

Local Abbreviation kept := (keptVertex n d t C).

Lemma kept_inside (x : point) : kept x -> dot x n <= d.
Proof.
  intros [(j & -> & Hj) | E].
  - pose proof (HC j). lra.
  - lra.
Qed.

Ltac kept_vertex :=
  lazymatch goal with
  | |- kept (edgeCut (C ?p) (C ?q) ?P ?N) =>
      right; apply (edgeCut_on_plane (C p) (C q) P N n d);
      [exact (HC p) | exact (HC q) | assumption | assumption]
  | |- kept (t0 t) => left; exists i0; split; [reflexivity | lra]
  | |- kept (t1 t) => left; exists i1; split; [reflexivity | lra]
  | |- kept (t2 t) => left; exists i2; split; [reflexivity | lra]
  | |- kept (t3 t) => left; exists i3; split; [reflexivity | lra]
  end.

Ltac destruct_ix :=
  repeat match goal with i : ix |- _ => destruct i end.

Lemma kept_cases (k : classes) :
  classified C k ->
  Forall (fun tet => forall i, kept (tget tet i)) (fst (splitCases C k t [])) /\
  (length (fst (splitCases C k t [])) <= 3)%nat.
Proof.
  intros [Hp Hn Hz Hc].
  destruct k as [ps ns zs]; cbn [pos neg zero] in *.
  destruct ps as [| p0 [| p1 [| p2 [| p3 [| p4 ps]]]]];
    destruct ns as [| n0 [| n1 [| n2 [| n3 [| n4 ns]]]]];
    destruct zs as [| z0 [| z1 [| z2 [| z3 [| z4 zs]]]]];
    try discriminate Hc; cbn [app] in Hc; forall_inv;
    run_split; (split; [| cbn [length]; lia]);
    repeat (apply Forall_cons; [intro |]); try apply Forall_nil;
    destruct_ix; try discriminate Hc;
    cbn [tget tset t0 t1 t2 t3]; kept_vertex.
Qed.

End Kept.

(** C10. Every vertex of every tetrahedron appended by
    [splitAndDecompose] satisfies [n . x <= d]: it is either a vertex of
    the input whose signed distance is not positive, or an edge
    intersection point, which lies exactly on the plane.  At most three
    tetrahedra are appended per call. *)
Theorem kept_in_half_space (h : hPlane) (t : Tetrahedron) :
  Forall (fun tet =>
            forall i,
              dot (tget tet i) (fst h) <= snd h /\
              ((exists j, tget tet i = tget t j /\ distance h t j <= 0) \/
               dot (tget tet i) (fst h) == snd h))
         (splitAndDecompose h t []) /\
  (forall buf, length (splitAndDecompose h t buf) <= length buf + 3)%nat.
Proof.
  destruct h as [n d].
  assert (HC : forall i, distance (n, d) t i == dot (tget t i) n - d)
    by (intro i; reflexivity).
  destruct (kept_cases n d t (distance (n, d) t) HC _
              (classify_classified (distance (n, d) t))) as [HF HL].
  split.
  - unfold splitAndDecompose, splitRun. cbn [fst snd].
    eapply Forall_impl; [| exact HF].
    intros tet Hk i. split.
    + exact (kept_inside n d t (distance (n, d) t) HC _ (Hk i)).
    + exact (Hk i).
  - intro buf. rewrite splitAndDecompose_append, length_app.
    unfold splitAndDecompose, splitRun. lia.
Qed.

(** ** getVolumeAndCentre against its specification *)

Lemma tetVolume_unsigned (t : Tetrahedron) : tetVolume t == unsignedVolume t.
Proof.
  unfold tetVolume, unsignedVolume.
  rewrite Qabs_Qmult, (Qabs_pos (1 / 6)) by (unfold Qle; cbn; lia).
  unfold Qdiv. ring.
Qed.

Lemma tetCentre_mean (t : Tetrahedron) : veq (tetCentre t) (vertexMean t).
Proof.
  unfold tetCentre, vertexMean, veq, vscale, vdiv, vadd, Qdiv; cbn [vx vy vz].
  repeat split; ring.
Qed.

Lemma vadd_assoc (a b c : vector) : veq (vadd (vadd a b) c) (vadd a (vadd b c)).
Proof. unfold veq, vadd; cbn [vx vy vz]. repeat split; ring. Qed.

Lemma vadd_zero_r (a : vector) : veq (vadd a vzero) a.
Proof. unfold veq, vadd, vzero; cbn [vx vy vz]. repeat split; ring. Qed.

Lemma vadd_zero_l (a : vector) : veq (vadd vzero a) a.
Proof. unfold veq, vadd, vzero; cbn [vx vy vz]. repeat split; ring. Qed.

Lemma fold_accumulate (tets : list Tetrahedron) (acc : Q * vector) :
  fst (fold_left accumulate tets acc) == fst acc + sumVolumes tets /\
  veq (snd (fold_left accumulate tets acc)) (vadd (snd acc) (sumMoments tets)).
Proof.
  revert acc. induction tets as [| t rest IH]; intro acc; cbn [fold_left sumVolumes sumMoments].
  - split; [ring | symmetry; apply vadd_zero_r].
  - destruct (IH (accumulate acc t)) as [IHv IHc]. split.
    + rewrite IHv. unfold accumulate; cbn [fst]. rewrite tetVolume_unsigned. ring.
    + rewrite IHc. unfold accumulate; cbn [snd].
      rewrite vadd_assoc, tetVolume_unsigned, tetCentre_mean. reflexivity.
Qed.

Lemma sumVolumes_nonneg (tets : list Tetrahedron) : 0 <= sumVolumes tets.
Proof.
  induction tets as [| t rest IH]; cbn [sumVolumes]; [lra |].
  assert (0 <= unsignedVolume t).
  { rewrite <- tetVolume_unsigned. apply tetVolume_nonneg. }
  lra.
Qed.


Lemma getVolumeAndCentre_sums (VSMALL : Q) (tets : list Tetrahedron) :
  fst (getVolumeAndCentre VSMALL tets) == sumVolumes tets /\
  veq (snd (getVolumeAndCentre VSMALL tets))
      (vdiv (sumMoments tets) (sumVolumes tets + VSMALL)).
Proof.
  destruct (fold_accumulate tets (0, vzero)) as [Hv Hc]. cbn [fst snd] in Hv, Hc.
  unfold getVolumeAndCentre.
  destruct (fold_left accumulate tets (0, vzero)) as [volume centre].
  cbn [fst snd] in *.
  assert (Ev : volume == sumVolumes tets) by (rewrite Hv; ring).
  split; [exact Ev |].
  rewrite Hc, vadd_zero_l, Ev. reflexivity.
Qed.



(** ** decomposeCell: the tetrahedral fast path *)

Lemma fillFourth_unique (points : pointField) (xT : point) (f0 f1 f2 u : label)
    (pu : point) (secondFace : list label) (s : slots) :
  In u secondFace ->
  u <> f0 -> u <> f1 -> u <> f2 ->
  (forall l, In l secondFace -> l <> f0 -> l <> f1 -> l <> f2 -> l = u) ->
  nth_error points u = Some pu ->
  fillFourth points xT f0 f1 f2 secondFace s = Some (sset s i3 (vsub pu xT)).
Proof.
  intros Hin N0 N1 N2 Huniq Hpu.
  induction secondFace as [| l rest IH]; [destruct Hin |].
  cbn [fillFourth].
  destruct (Nat.eqb_spec l f0) as [E0 | D0]; cbn [negb andb].
  2: destruct (Nat.eqb_spec l f1) as [E1 | D1]; cbn [negb andb].
  3: destruct (Nat.eqb_spec l f2) as [E2 | D2]; cbn [negb andb].
  4: { rewrite (Huniq l (or_introl eq_refl) D0 D1 D2), Hpu. reflexivity. }
  all: apply IH;
    [ destruct Hin as [-> | Hin]; [congruence | exact Hin]
    | intros l' Hl'; apply Huniq; right; exact Hl' ].
Qed.

(** C6. For a cell with exactly four faces whose first face has at least
    three vertices and whose second face has a unique vertex [u] outside
    the first three, [decomposeCell] yields exactly one tetrahedron: the
    first three vertices of the first face, in face order, then [u], all
    translated by [- xT]; the centroid [xC] plays no part. *)
Theorem tetrahedral_cell (mesh : polyMesh) (points : pointField) (cellIndex : label)
    (xC xT : point) (buf : list Tetrahedron)
    (c0 c1 c2 c3 f0 f1 f2 u : label) (firstTail secondFace : list label)
    (p0 p1 p2 pu : point) :
  nth_error (cells mesh) cellIndex = Some [c0; c1; c2; c3] ->
  nth_error (faces mesh) c0 = Some (f0 :: f1 :: f2 :: firstTail) ->
  nth_error (faces mesh) c1 = Some secondFace ->
  In u secondFace -> u <> f0 -> u <> f1 -> u <> f2 ->
  (forall l, In l secondFace -> l <> f0 -> l <> f1 -> l <> f2 -> l = u) ->
  nth_error points f0 = Some p0 ->
  nth_error points f1 = Some p1 ->
  nth_error points f2 = Some p2 ->
  nth_error points u = Some pu ->
  decomposeCell mesh points cellIndex xC buf xT
  = Some [mkTet (vsub p0 xT) (vsub p1 xT) (vsub p2 xT) (vsub pu xT)] /\
  forall xC', decomposeCell mesh points cellIndex xC' buf xT
              = decomposeCell mesh points cellIndex xC buf xT.
Proof.
  intros Hcell Hf0 Hf1 Hin N0 N1 N2 Huniq H0 H1 H2 Hu.
  assert (E : forall x, decomposeCell mesh points cellIndex x buf xT
                        = Some [mkTet (vsub p0 xT) (vsub p1 xT) (vsub p2 xT) (vsub pu xT)]).
  { intro x. unfold decomposeCell. rewrite Hcell. cbn [bindO length Nat.eqb nth_error].
    rewrite Hf0, Hf1. cbn [bindO nth_error]. rewrite H0, H1, H2. cbn [bindO].
    rewrite (fillFourth_unique points xT f0 f1 f2 u pu secondFace _
               Hin N0 N1 N2 Huniq Hu).
    reflexivity. }
  split; [apply E |]. intro xC'. rewrite !E. reflexivity.
Qed.

Lemma tetrahedral_cell_witness :
  decomposeCell tetMesh tetPoints 0%nat (mkVec 5 5 5) [] (mkVec 1 0 0)
  = Some [mkTet (vsub (mkVec 0 0 0) (mkVec 1 0 0)) (vsub (mkVec 0 1 0) (mkVec 1 0 0))
                (vsub (mkVec 1 0 0) (mkVec 1 0 0)) (vsub (mkVec 0 0 1) (mkVec 1 0 0))].
Proof.
  apply (tetrahedral_cell tetMesh tetPoints 0%nat (mkVec 5 5 5) (mkVec 1 0 0) []
           0%nat 1%nat 2%nat 3%nat 0%nat 2%nat 1%nat 3%nat [] [0; 1; 3]%nat);
    try reflexivity; try (intro H; discriminate H).
  - cbn. tauto.
  - intros l [<- | [<- | [<- | []]]] A B C; congruence.
Defined.

(** ** decomposeCell: the apex fan *)

Lemma nth_error_pointAt (points : pointField) (l : label) :
  (l < length points)%nat -> nth_error points l = Some (pointAt points l).
Proof. intro H. apply nth_error_nth'. exact H. Qed.

Lemma sum_points (points : pointField) (f : face) (acc : vector) :
  (forall l, In l f -> (l < length points)%nat) ->
  foldM (fun acc l => p <- nth_error points l ;; Some (vadd acc p)) f acc
  = Some (fold_left vadd (map (pointAt points) f) acc).
Proof.
  revert acc. induction f as [| l f IH]; intros acc H; [reflexivity |].
  cbn [foldM map fold_left].
  rewrite (nth_error_pointAt points l (H l (or_introl eq_refl))). cbn [bindO].
  apply IH. intros l' Hl'. apply H. right. exact Hl'.
Qed.

Lemma faceCentre_mean (points : pointField) (f : face) :
  (forall l, In l f -> (l < length points)%nat) ->
  faceCentre f points = Some (faceMean f points).
Proof.
  intro H. unfold faceCentre. rewrite (sum_points points f vzero H). reflexivity.
Qed.

Lemma fan_loop (points : pointField) (xT c x : point) (f : face) (idxs : list nat) :
  (forall l, In l f -> (l < length points)%nat) ->
  (forall i, In i idxs -> (i < length f)%nat) ->
  forall (s : slots) (acc : list Tetrahedron),
    s2 s = Some c -> s3 s = Some x ->
    exists s',
      foldM (fanStep points xT f) idxs (s, acc)
      = Some (s', acc ++ map (fun i =>
                                mkTet (vsub (pointAt points (nth i f 0%nat)) xT)
                                      (vsub (pointAt points
                                               (nth ((i + 1) mod length f) f 0%nat)) xT)
                                      c x) idxs)
      /\ s3 s' = Some x.
Proof.
  intros Hpts. induction idxs as [| i idxs IH]; intros His s acc H2 H3.
  - exists s. cbn [foldM map]. rewrite app_nil_r. auto.
  - assert (Hi : (i < length f)%nat) by (apply His; left; reflexivity).
    assert (Hn : ((i + 1) mod length f < length f)%nat)
      by (apply Nat.mod_upper_bound; lia).
    cbn [foldM map]. unfold fanStep at 1. unfold nextLabel.
    rewrite (nth_error_nth' f 0%nat Hi). cbn [bindO].
    rewrite (nth_error_pointAt points _ (Hpts _ (nth_In f 0%nat Hi))). cbn [bindO].
    rewrite (nth_error_nth' f 0%nat Hn). cbn [bindO].
    rewrite (nth_error_pointAt points _ (Hpts _ (nth_In f 0%nat Hn))). cbn [bindO].
    unfold contents. cbn [sset s0 s1 s2 s3 bindO]. rewrite H2, H3. cbn [bindO].
    match goal with
    | |- context [foldM _ idxs (?s1, ?acc1)] =>
        destruct (IH (fun j Hj => His j (or_intror Hj)) s1 acc1 eq_refl eq_refl)
          as (s' & E & E3)
    end.
    exists s'. rewrite E, <- app_assoc. auto.
Qed.

Lemma face_step (mesh : polyMesh) (points : pointField) (xC xT : point)
    (fl : label) (s : slots) (acc : list Tetrahedron) :
  (fl < length (faces mesh))%nat ->
  (forall l, In l (nth fl (faces mesh) []) -> (l < length points)%nat) ->
  s3 s = Some (vsub xC xT) ->
  exists s',
    faceStep (faces mesh) points xT (s, acc) fl
    = Some (s', acc ++ faceTets points xC xT (nth fl (faces mesh) []))
    /\ s3 s' = Some (vsub xC xT).
Proof.
  intros Hfl Hpts H3. unfold faceStep, faceTets.
  rewrite (nth_error_nth' (faces mesh) [] Hfl). cbn [bindO].
  set (f := nth fl (faces mesh) []) in *.
  destruct (Nat.eqb (length f) 3) eqn:E3.
  - apply Nat.eqb_eq in E3.
    destruct f as [| a [| b [| c [| e f]]]]; try discriminate E3.
    cbn [nth_error bindO nth].
    rewrite (nth_error_pointAt points a), (nth_error_pointAt points b),
            (nth_error_pointAt points c) by (apply Hpts; cbn; tauto).
    cbn [bindO]. unfold contents. cbn [sset s0 s1 s2 s3 bindO]. rewrite H3.
    cbn [bindO]. eexists. split; reflexivity.
  - rewrite (faceCentre_mean points f Hpts). cbn [bindO].
    apply fan_loop; try assumption.
    + intros i Hi. apply in_seq in Hi. lia.
    + reflexivity.
Qed.

Lemma cell_loop (mesh : polyMesh) (points : pointField) (xC xT : point)
    (dCell : cell) :
  cellInRange mesh points dCell ->
  forall (s : slots) (acc : list Tetrahedron),
    s3 s = Some (vsub xC xT) ->
    exists s',
      foldM (faceStep (faces mesh) points xT) dCell (s, acc)
      = Some (s', acc ++ flat_map (fun fl => faceTets points xC xT
                                               (nth fl (faces mesh) [])) dCell).
Proof.
  induction dCell as [| fl dCell IH]; intros Hr s acc H3.
  - exists s. cbn [foldM flat_map]. rewrite app_nil_r. reflexivity.
  - destruct (Hr fl (or_introl eq_refl)) as [Hfl Hpts].
    destruct (face_step mesh points xC xT fl s acc Hfl Hpts H3) as (s1 & E & E3).
    cbn [foldM flat_map]. rewrite E. cbn [bindO].
    destruct (IH (fun fl' H => Hr fl' (or_intror H)) s1
                 (acc ++ faceTets points xC xT (nth fl (faces mesh) [])) E3)
      as (s' & E').
    exists s'. rewrite E', <- app_assoc. reflexivity.
Qed.

(** C7. For a cell whose face count is not four, [decomposeCell] emits,
    face by face in the order of the cell, one tetrahedron
    [(v0, v1, v2, xC)] for a triangle and otherwise the tetrahedra
    [(v_i, v_(i+1 mod k), faceCentroid, xC)] for [i = 0 .. k-1], with
    [faceCentroid] the arithmetic mean of the face's vertices; every
    coordinate written, [xC] and [faceCentroid] included, is translated
    by [- xT]. *)
Theorem general_cell (mesh : polyMesh) (points : pointField) (cellIndex : label)
    (xC xT : point) (buf : list Tetrahedron) (dCell : cell) :
  nth_error (cells mesh) cellIndex = Some dCell ->
  length dCell <> 4%nat ->
  cellInRange mesh points dCell ->
  decomposeCell mesh points cellIndex xC buf xT
  = Some (flat_map (fun fl => faceTets points xC xT (nth fl (faces mesh) [])) dCell).
Proof.
  intros Hcell H4 Hr. unfold decomposeCell. rewrite Hcell. cbn [bindO].
  apply Nat.eqb_neq in H4. rewrite H4.
  destruct (cell_loop mesh points xC xT dCell Hr (sset unassigned i3 (vsub xC xT)) []
              eq_refl) as (s' & E).
  rewrite E. reflexivity.
Qed.

Lemma cubeMesh_inRange : cellInRange cubeMesh cubePoints [0; 1; 2; 3; 4; 5]%nat.
Proof.
  intros fl Hfl. cbn in Hfl.
  destruct Hfl as [<- | [<- | [<- | [<- | [<- | [<- | []]]]]]];
    (split; [cbn; lia |]); intros l Hl; cbn in Hl;
    destruct Hl as [<- | [<- | [<- | [<- | []]]]]; cbn; lia.
Qed.

Lemma general_cell_witness :
  decomposeCell cubeMesh cubePoints 0%nat (mkVec half half half) [] (mkVec 1 2 3)
  = Some (flat_map (fun fl => faceTets cubePoints (mkVec half half half) (mkVec 1 2 3)
                                       (nth fl (faces cubeMesh) []))
                   [0; 1; 2; 3; 4; 5]%nat).
Proof.
  apply (general_cell cubeMesh cubePoints 0%nat (mkVec half half half) (mkVec 1 2 3) []
           [0; 1; 2; 3; 4; 5]%nat).
  - reflexivity.
  - cbn. lia.
  - exact cubeMesh_inRange.
Defined.

(** ** decomposeCell: the translation origin *)

Lemma vsub_origin (xT p : point) : vshifted xT (vsub p xT) (vsub p vzero).
Proof.
  unfold vshifted, veq, vsub, vzero; cbn [vx vy vz]. repeat split; ring.
Qed.

Lemma sset_rel (xT : point) (s s' : slots) (i : ix) (v v' : point) :
  slots_rel xT s s' -> vshifted xT v v' -> slots_rel xT (sset s i v) (sset s' i v').
Proof.
  intros (H0 & H1 & H2 & H3) Hv.
  destruct i; unfold slots_rel; cbn [sset s0 s1 s2 s3 orel]; auto.
Qed.

Lemma contents_rel (xT : point) (s s' : slots) :
  slots_rel xT s s' -> orel (shifted xT) (contents s) (contents s').
Proof.
  intros (H0 & H1 & H2 & H3). unfold contents.
  destruct (s0 s), (s0 s'); cbn [orel bindO] in *; try contradiction; auto;
  destruct (s1 s), (s1 s'); cbn [orel bindO] in *; try contradiction; auto;
  destruct (s2 s), (s2 s'); cbn [orel bindO] in *; try contradiction; auto;
  destruct (s3 s), (s3 s'); cbn [orel bindO] in *; try contradiction; auto.
  unfold shifted, teq, tshift; cbn [t0 t1 t2 t3]. auto.
Qed.

Lemma foldM_rel {S S' A : Type} (R : S -> S' -> Prop)
    (f : S -> A -> option S) (f' : S' -> A -> option S') :
  (forall s s' a, R s s' -> orel R (f s a) (f' s' a)) ->
  forall l s s', R s s' -> orel R (foldM f l s) (foldM f' l s').
Proof.
  intros Hf. induction l as [| a l IH]; intros s s' HR; cbn [foldM].
  - exact HR.
  - specialize (Hf s s' a HR).
    destruct (f s a), (f' s' a); cbn [orel bindO] in *; try contradiction; auto.
Qed.

Ltac same_lookup :=
  repeat match goal with
         | |- context [bindO (nth_error ?l ?i) _] =>
             destruct (nth_error l i); cbn [bindO orel]; [| exact I]
         end.

Lemma append_rel (xT : point) (s s' : slots) (l l' : list Tetrahedron) :
  slots_rel xT s s' -> Forall2 (shifted xT) l l' ->
  orel (state_rel xT)
       (t <- contents s ;; Some (s, l ++ [t]))
       (t <- contents s' ;; Some (s', l' ++ [t])).
Proof.
  intros Hs Hl. pose proof (contents_rel xT s s' Hs) as Hc.
  destruct (contents s), (contents s'); cbn [orel bindO] in *; try contradiction; auto.
  split; cbn [fst snd]; [exact Hs |].
  apply Forall2_app; [exact Hl | constructor; [exact Hc | constructor]].
Qed.

Lemma fanStep_rel (points : pointField) (xT : point) (f : face)
    (st st' : slots * list Tetrahedron) (i : nat) :
  state_rel xT st st' ->
  orel (state_rel xT) (fanStep points xT f st i) (fanStep points vzero f st' i).
Proof.
  destruct st as [s l], st' as [s' l']. intros [Hs Hl]; cbn [fst snd] in *.
  unfold fanStep, nextLabel. same_lookup.
  apply append_rel; [| exact Hl].
  repeat apply sset_rel; try apply vsub_origin. exact Hs.
Qed.

Lemma faceStep_rel (fs : list face) (points : pointField) (xT : point)
    (st st' : slots * list Tetrahedron) (fl : label) :
  state_rel xT st st' ->
  orel (state_rel xT) (faceStep fs points xT st fl) (faceStep fs points vzero st' fl).
Proof.
  destruct st as [s l], st' as [s' l']. intros [Hs Hl]; cbn [fst snd] in *.
  unfold faceStep. same_lookup.
  destruct (Nat.eqb (length f) 3).
  - same_lookup. apply append_rel; [| exact Hl].
    repeat apply sset_rel; try apply vsub_origin. exact Hs.
  - destruct (faceCentre f points); cbn [bindO orel]; [| exact I].
    apply foldM_rel.
    + intros a b i. apply fanStep_rel.
    + split; cbn [fst snd]; [| exact Hl].
      apply sset_rel; [exact Hs | apply vsub_origin].
Qed.

Lemma fillFourth_rel (points : pointField) (xT : point) (f0 f1 f2 : label)
    (secondFace : list label) (s s' : slots) :
  slots_rel xT s s' ->
  orel (slots_rel xT) (fillFourth points xT f0 f1 f2 secondFace s)
                      (fillFourth points vzero f0 f1 f2 secondFace s').
Proof.
  intro Hs. induction secondFace as [| l rest IH]; cbn [fillFourth].
  - exact Hs.
  - destruct (negb (Nat.eqb l f0) && negb (Nat.eqb l f1) && negb (Nat.eqb l f2)).
    + same_lookup. apply sset_rel; [exact Hs | apply vsub_origin].
    + exact IH.
Qed.

Lemma slots_rel_unassigned (xT : point) : slots_rel xT unassigned unassigned.
Proof. repeat split. Qed.

(** The tetrahedra produced with origin [xT] are those produced with
    origin [0], shifted by [- xT]; both calls are defined together. *)
Lemma decomposeCell_shifted (mesh : polyMesh) (points : pointField)
    (cellIndex : label) (xC xT : point) (buf : list Tetrahedron) :
  orel (Forall2 (shifted xT))
       (decomposeCell mesh points cellIndex xC buf xT)
       (decomposeCell mesh points cellIndex xC buf vzero).
Proof.
  unfold decomposeCell. same_lookup.
  destruct (Nat.eqb (length c) 4).
  - same_lookup.
    match goal with
    | |- context [fillFourth points xT ?a ?b ?c ?sf ?s] =>
        match goal with
        | |- context [fillFourth points vzero a b c sf ?s'] =>
            assert (Hf : orel (slots_rel xT) (fillFourth points xT a b c sf s)
                              (fillFourth points vzero a b c sf s'))
              by (apply fillFourth_rel; repeat apply sset_rel;
                  try apply vsub_origin; apply slots_rel_unassigned);
            destruct (fillFourth points xT a b c sf s) as [r |],
                     (fillFourth points vzero a b c sf s') as [r' |];
            cbn [orel bindO] in *; try contradiction; auto
        end
    end.
    pose proof (contents_rel xT r r' Hf) as Hc.
    destruct (contents r), (contents r'); cbn [orel bindO app] in *;
      try contradiction; auto.
  - match goal with
    | |- orel _ (bindO (foldM ?g ?l ?s) _) (bindO (foldM ?g' ?l ?s') _) =>
        assert (Hf : orel (state_rel xT) (foldM g l s) (foldM g' l s'));
        [ apply foldM_rel;
          [ intros a b i; apply faceStep_rel
          | split; cbn [fst snd]; [| constructor];
            apply sset_rel; [apply slots_rel_unassigned |];
            unfold vshifted, veq, vsub, vzero; cbn [vx vy vz]; repeat split; ring ]
        | destruct (foldM g l s) as [r |], (foldM g' l s') as [r' |];
          cbn [orel bindO] in *; try contradiction; auto; apply Hf ]
    end.
Qed.

Lemma tetVolume_tshift (xT : point) (t : Tetrahedron) :
  tetVolume (tshift xT t) == tetVolume t.
Proof.
  unfold tetVolume, tshift, dot, cross, vsub; cbn [vx vy vz t0 t1 t2 t3].
  apply Qabs_wd. ring.
Qed.

Lemma shifted_volume (xT : point) (t t' : Tetrahedron) :
  shifted xT t t' -> unsignedVolume t == unsignedVolume t'.
Proof.
  intro H. rewrite <- !tetVolume_unsigned, (tetVolume_teq _ _ H).
  apply tetVolume_tshift.
Qed.

Lemma shifted_mean (xT : point) (t t' : Tetrahedron) :
  shifted xT t t' -> veq (vertexMean t) (vsub (vertexMean t') xT).
Proof.
  intros (H0 & H1 & H2 & H3). unfold vertexMean. rewrite H0, H1, H2, H3.
  unfold tshift, veq, vdiv, vadd, vsub, Qdiv; cbn [vx vy vz t0 t1 t2 t3].
  repeat split; field.
Qed.

Lemma shifted_sums (xT : point) (l l' : list Tetrahedron) :
  Forall2 (shifted xT) l l' ->
  sumVolumes l == sumVolumes l' /\
  veq (sumMoments l) (vsub (sumMoments l') (vscale (sumVolumes l') xT)).
Proof.
  induction 1 as [| t t' l l' Ht Hl [IHv IHm]]; cbn [sumVolumes sumMoments].
  - split; [reflexivity |].
    unfold veq, vsub, vscale, vzero; cbn [vx vy vz]. repeat split; ring.
  - split.
    + rewrite (shifted_volume xT t t' Ht), IHv. reflexivity.
    + rewrite (shifted_volume xT t t' Ht), (shifted_mean xT t t' Ht), IHm.
      unfold veq, vsub, vadd, vscale; cbn [vx vy vz]. repeat split; ring.
Qed.

(** The aggregate of a shifted list. *)
Lemma shifted_aggregate (VSMALL : Q) (xT : point) (l l' : list Tetrahedron) :
  Forall2 (shifted xT) l l' ->
  let V := fst (getVolumeAndCentre VSMALL l) in
  let V' := fst (getVolumeAndCentre VSMALL l') in
  let c := snd (getVolumeAndCentre VSMALL l) in
  let c' := snd (getVolumeAndCentre VSMALL l') in
  V == V' /\ veq c (vsub c' (vscale (V' / (V' + VSMALL)) xT)).
Proof.
  intros H V V' c c'.
  destruct (shifted_sums xT l l' H) as [Hv Hm].
  destruct (getVolumeAndCentre_sums VSMALL l) as [Ev Ec].
  destruct (getVolumeAndCentre_sums VSMALL l') as [Ev' Ec'].
  fold V in Ev. fold V' in Ev'. fold c in Ec. fold c' in Ec'.
  split; [rewrite Ev, Ev'; exact Hv |].
  rewrite Ec, Ec', Hm, Hv, Ev'.
  unfold veq, vsub, vdiv, vscale, Qdiv; cbn [vx vy vz]. repeat split; ring.
Qed.

Lemma zero_sum_moments (tets : list Tetrahedron) :
  sumVolumes tets == 0 -> veq (sumMoments tets) vzero.
Proof.
  induction tets as [| t rest IH]; cbn [sumVolumes sumMoments]; intro H.
  - reflexivity.
  - pose proof (sumVolumes_nonneg rest) as Hr.
    pose proof (tetVolume_nonneg t) as Ht. rewrite tetVolume_unsigned in Ht.
    assert (E : unsignedVolume t == 0) by lra.
    rewrite IH by lra. rewrite E.
    cbv [veq vadd vscale vzero vx vy vz]. repeat split; ring.
Qed.

(** C8, as stated, fails on the aggregated centre: the cell of
    [tetMesh] on four coplanar points has volume zero, so
    [getVolumeAndCentre] returns the centre [0] whatever the origin;
    with the origin [(1, 0, 0)] the centre is not the centre of the
    untranslated decomposition shifted by [- xT]. *)
Lemma translation_counterexample :
  exists l l',
    decomposeCell tetMesh flatPoints 0%nat (mkVec 0 0 0) [] (mkVec 1 0 0) = Some l /\
    decomposeCell tetMesh flatPoints 0%nat (mkVec 0 0 0) [] vzero = Some l' /\
    fst (getVolumeAndCentre VSMALL_double l) == 0 /\
    veq (snd (getVolumeAndCentre VSMALL_double l)) vzero /\
    veq (snd (getVolumeAndCentre VSMALL_double l')) vzero /\
    ~ veq (snd (getVolumeAndCentre VSMALL_double l))
          (vsub (snd (getVolumeAndCentre VSMALL_double l')) (mkVec 1 0 0)).
Proof.
  eexists. eexists. split; [reflexivity |]. split; [reflexivity |].
  split; [reflexivity |]. split; [repeat split |]. split; [repeat split |].
  intros (Hx & _). vm_compute in Hx. discriminate Hx.
Qed.

(** C8, amended. In exact arithmetic the tetrahedra produced with
    origin [xT] are those produced with origin [0] with every vertex
    shifted by [- xT] (and either call is defined exactly when the other
    is); the aggregated volume is unchanged, and the aggregated centre
    is shifted by [- (V / (V + VSMALL)) xT]: not at all when the volume
    is zero, where the centre is [0] for every origin, and by [- xT]
    when the floor is zero and the volume is not. *)
Theorem translation_invariance (VSMALL : Q) (mesh : polyMesh) (points : pointField)
    (cellIndex : label) (xC xT : point) (buf : list Tetrahedron) :
  match decomposeCell mesh points cellIndex xC buf xT,
        decomposeCell mesh points cellIndex xC buf vzero with
  | Some l, Some l' =>
      Forall2 (fun t t' => teq t (tshift xT t')) l l' /\
      let V := fst (getVolumeAndCentre VSMALL l) in
      let V' := fst (getVolumeAndCentre VSMALL l') in
      let c := snd (getVolumeAndCentre VSMALL l) in
      let c' := snd (getVolumeAndCentre VSMALL l') in
      V == V' /\
      veq c (vsub c' (vscale (V' / (V' + VSMALL)) xT)) /\
      (VSMALL == 0 -> 0 < V' -> veq c (vsub c' xT)) /\
      (V' == 0 -> veq c vzero /\ veq c' vzero)
  | None, None => True
  | _, _ => False
  end.
Proof.
  pose proof (decomposeCell_shifted mesh points cellIndex xC xT buf) as H.
  destruct (decomposeCell mesh points cellIndex xC buf xT) as [l |],
           (decomposeCell mesh points cellIndex xC buf vzero) as [l' |];
    cbn [orel] in H; try contradiction; auto.
  split; [exact H |].
  destruct (shifted_aggregate VSMALL xT l l' H) as [Hv Hc].
  intros V V' c c'. fold V' c c' in Hc.
  split; [exact Hv |]. split; [exact Hc |]. split.
  - intros E0 Hpos. rewrite Hc.
    unfold veq, vsub, vscale; cbn [vx vy vz].
    assert (E1 : V' / (V' + VSMALL) == 1) by (rewrite E0; field; lra).
    rewrite E1. repeat split; ring.
  - intro E0.
    destruct (getVolumeAndCentre_sums VSMALL l') as [Ev' Ec'].
    fold V' in Ev'. fold c' in Ec'.
    assert (Z' : veq c' vzero).
    { rewrite Ec', (zero_sum_moments l') by (rewrite <- Ev'; exact E0).
      cbv [veq vdiv vzero vx vy vz Qdiv]. repeat split; ring. }
    split; [| exact Z'].
    rewrite Hc, Z', E0.
    cbv [veq vsub vscale vzero vx vy vz Qdiv]. repeat split; ring.
Qed.

(** ** Further concrete runs *)

Lemma divisions_safe_witness :
  splitDivisions (mkVec 1 0 0, 1 # 2) unitTet = [(i1, i0); (i1, i2); (i1, i3)] /\
  pos (classify (distance (mkVec 1 0 0, 1 # 2) unitTet)) <> [] /\
  neg (classify (distance (mkVec 1 0 0, 1 # 2) unitTet)) <> [].
Proof.
  split; [reflexivity |].
  apply (proj2 (divisions_safe (mkVec 1 0 0, 1 # 2) unitTet)).
  vm_compute. discriminate.
Defined.


Lemma translation_invariance_witness :
  match decomposeCell tetMesh tetPoints 0%nat vzero [] (mkVec 1 0 0),
        decomposeCell tetMesh tetPoints 0%nat vzero [] vzero with
  | Some l, Some l' =>
      veq (snd (getVolumeAndCentre 0 l))
          (vsub (snd (getVolumeAndCentre 0 l')) (mkVec 1 0 0))
  | _, _ => False
  end.
Proof.
  pose proof (translation_invariance 0 tetMesh tetPoints 0%nat vzero (mkVec 1 0 0) [])
    as H.
  destruct (decomposeCell tetMesh tetPoints 0%nat vzero [] (mkVec 1 0 0)) as [l |];
    [| exact H].
  destruct (decomposeCell tetMesh tetPoints 0%nat vzero [] vzero) as [l' |] eqn:E';
    [| exact H].
  destruct H as (_ & _ & _ & H & _). apply H; [reflexivity |].
  injection E' as <-. vm_compute. reflexivity.
Defined.

(** * Further properties of the code *)

(** ** The remaining split cases *)

Ltac class_shapes ps ns zs Hc :=
  destruct ps as [| ?p0 [| ?p1 [| ?p2 [| ?p3 [| ?p4 ps]]]]];
  destruct ns as [| ?n0 [| ?n1 [| ?n2 [| ?n3 [| ?n4 ns]]]]];
  destruct zs as [| ?z0 [| ?z1 [| ?z2 [| ?z3 [| ?z4 zs]]]]];
  try discriminate Hc; cbn [app] in Hc.

Ltac all_ix :=
  repeat match goal with i : ix |- _ => destruct i end.

Lemma single_negative_cases (C : ix -> Q) (k : classes) (t : Tetrahedron) :
  classified C k ->
  length (neg k) = 1%nat -> pos k <> [] ->
  exists out,
    fst (splitCases C k t []) = [out] /\
    forall i, tget out i
              = if existsb (ix_eqb i) (pos k)
                then edgePoint C t i (at_ (neg k) 0)
                else tget t i.
Proof.
  intros [_ _ _ Hc] Ln Hp. destruct k as [ps ns zs]; cbn [pos neg zero] in *.
  class_shapes ps ns zs Hc; try discriminate Ln; try congruence;
    run_split; eexists; (split; [reflexivity |]); intro i;
    all_ix; try discriminate Hc; reflexivity.
Qed.

(** X1. Cases A, C and F ([+++-], [++-0], [+-00]): with exactly one
    negative vertex and at least one positive vertex, exactly one
    tetrahedron is appended; it is the input with every positive vertex
    replaced, in place, by the intersection of its edge to the negative
    vertex, the negative and the on-plane vertices being kept. *)
Theorem single_negative_vertex (h : hPlane) (t : Tetrahedron)
    (buf : list Tetrahedron) :
  let C := distance h t in
  let k := classify C in
  length (neg k) = 1%nat -> pos k <> [] ->
  exists out,
    splitAndDecompose h t buf = buf ++ [out] /\
    forall i, tget out i
              = if existsb (ix_eqb i) (pos k)
                then edgePoint C t i (at_ (neg k) 0)
                else tget t i.
Proof.
  intros C k Ln Hp.
  destruct (single_negative_cases C k t (classify_classified C) Ln Hp)
    as (out & E & Hout).
  exists out. split; [| exact Hout].
  rewrite splitAndDecompose_append. unfold splitAndDecompose, splitRun.
  fold C. fold k. rewrite E. reflexivity.
Qed.

Lemma single_negative_vertex_witness :
  exists out,
    splitAndDecompose (mkVec (-1) 0 0, -1 # 2) unitTet [] = [] ++ [out] /\
    tget out i0 = edgePoint (distance (mkVec (-1) 0 0, -1 # 2) unitTet) unitTet i0 i1 /\
    tget out i1 = tget unitTet i1.
Proof.
  destruct (single_negative_vertex (mkVec (-1) 0 0, -1 # 2) unitTet [])
    as (out & E & Hout).
  - reflexivity.
  - vm_compute. discriminate.
  - exists out. split; [exact E |]. split; [exact (Hout i0) | exact (Hout i1)].
Defined.

Lemma one_three_cases (C : ix -> Q) (t : Tetrahedron) (p0 n0 n1 n2 : ix)
    (zs : list ix) :
  covers [p0; n0; n1; n2] = true ->
  let I0 := edgePoint C t p0 n0 in
  let I1 := edgePoint C t p0 n1 in
  let I2 := edgePoint C t p0 n2 in
  fst (splitCases C (mkClasses [p0] [n0; n1; n2] zs) t [])
  = [tset t p0 I0;
     mkTet I0 (tget t n1) (tget t n2) I1;
     mkTet (tget t n2) I1 I2 I0].
Proof.
  intro Hc. destruct p0, n0, n1, n2; try discriminate Hc; reflexivity.
Qed.

(** X2. Case D ([+---]): with one positive and three negative vertices,
    exactly three tetrahedra are appended, in this order: the input
    with the positive vertex replaced by [I0]; then [(I0, N1, N2, I1)];
    then [(N2, I1, I2, I0)], where [Ii = I(P0, Ni)]. *)
Theorem case_one_three (h : hPlane) (t : Tetrahedron) (buf : list Tetrahedron) :
  let C := distance h t in
  let k := classify C in
  length (pos k) = 1%nat -> length (neg k) = 3%nat ->
  let p0 := at_ (pos k) 0 in
  let N := fun i => tget t (at_ (neg k) i) in
  let I := fun i => edgePoint C t p0 (at_ (neg k) i) in
  splitAndDecompose h t buf
  = buf ++ [tset t p0 (I 0%nat);
            mkTet (I 0%nat) (N 1%nat) (N 2%nat) (I 1%nat);
            mkTet (N 2%nat) (I 1%nat) (I 2%nat) (I 0%nat)].
Proof.
  intros C k Lp Ln p0 N I.
  pose proof (classify_classified C) as [_ _ _ Hc]. fold k in Hc.
  rewrite splitAndDecompose_append. unfold splitAndDecompose, splitRun.
  fold C. fold k. subst p0 N I.
  destruct k as [ps ns zs]; cbn [pos neg zero] in *.
  destruct ps as [| p0 [| p1 ps]]; try discriminate Lp.
  destruct ns as [| n0 [| n1 [| n2 [| n3 ns]]]]; try discriminate Ln.
  destruct zs as [| z0 zs]; [| discriminate Hc].
  rewrite (one_three_cases C t p0 n0 n1 n2 [] Hc). reflexivity.
Qed.

Lemma case_one_three_witness :
  length (pos (classify (distance (mkVec 1 0 0, 1 # 2) unitTet))) = 1%nat /\
  length (neg (classify (distance (mkVec 1 0 0, 1 # 2) unitTet))) = 3%nat /\
  length (splitAndDecompose (mkVec 1 0 0, 1 # 2) unitTet []) = 3%nat.
Proof.
  split; [reflexivity |]. split; [reflexivity |].
  rewrite (case_one_three (mkVec 1 0 0, 1 # 2) unitTet []); reflexivity.
Defined.

Lemma one_two_cases (C : ix -> Q) (t : Tetrahedron) (p0 n0 n1 z0 : ix) :
  covers [p0; n0; n1; z0] = true ->
  let I0 := edgePoint C t p0 n0 in
  let I1 := edgePoint C t p0 n1 in
  fst (splitCases C (mkClasses [p0] [n0; n1] [z0]) t [])
  = [tset t p0 I0; mkTet I1 (tget t z0) (tget t n1) I0].
Proof.
  intro Hc. destruct p0, n0, n1, z0; try discriminate Hc; reflexivity.
Qed.

(** X3. Case E ([+--0]): with one positive, two negative and one on-plane
    vertex, exactly two tetrahedra are appended: the input with the
    positive vertex replaced by [I0], then [(I1, Z0, N1, I0)]. *)
Theorem case_one_two (h : hPlane) (t : Tetrahedron) (buf : list Tetrahedron) :
  let C := distance h t in
  let k := classify C in
  length (pos k) = 1%nat -> length (neg k) = 2%nat ->
  let p0 := at_ (pos k) 0 in
  let I := fun i => edgePoint C t p0 (at_ (neg k) i) in
  splitAndDecompose h t buf
  = buf ++ [tset t p0 (I 0%nat);
            mkTet (I 1%nat) (tget t (at_ (zero k) 0)) (tget t (at_ (neg k) 1))
                  (I 0%nat)].
Proof.
  intros C k Lp Ln p0 I.
  pose proof (classify_classified C) as [_ _ _ Hc]. fold k in Hc.
  rewrite splitAndDecompose_append. unfold splitAndDecompose, splitRun.
  fold C. fold k. subst p0 I.
  destruct k as [ps ns zs]; cbn [pos neg zero] in *.
  destruct ps as [| p0 [| p1 ps]]; try discriminate Lp.
  destruct ns as [| n0 [| n1 [| n2 ns]]]; try discriminate Ln.
  destruct zs as [| z0 [| z1 zs]]; try discriminate Hc.
  rewrite (one_two_cases C t p0 n0 n1 z0 Hc). reflexivity.
Qed.

Lemma case_one_two_witness :
  length (pos (classify (distance (mkVec 1 (-1) (-1), 0) unitTet))) = 1%nat /\
  length (neg (classify (distance (mkVec 1 (-1) (-1), 0) unitTet))) = 2%nat /\
  length (splitAndDecompose (mkVec 1 (-1) (-1), 0) unitTet []) = 2%nat.
Proof.
  split; [reflexivity |]. split; [reflexivity |].
  rewrite (case_one_two (mkVec 1 (-1) (-1), 0) unitTet []); reflexivity.
Defined.

(** ** How many tetrahedra and how many divisions *)



(** ** Clipping twice by the same plane *)

Ltac neg_at i :=
  exists i; cbn [tget tset t0 t1 t2 t3];
  first [ exists i0; split; [reflexivity | assumption]
        | exists i1; split; [reflexivity | assumption]
        | exists i2; split; [reflexivity | assumption]
        | exists i3; split; [reflexivity | assumption] ].

Lemma negative_vertex_cases (C : ix -> Q) (k : classes) (t : Tetrahedron) :
  classified C k ->
  Forall (fun tet => exists i j, tget tet i = tget t j /\ C j < 0)
         (fst (splitCases C k t [])).
Proof.
  intros [Hp Hn Hz Hc].
  destruct k as [ps ns zs]; cbn [pos neg zero] in *.
  class_shapes ps ns zs Hc; forall_inv; run_split;
    repeat (apply Forall_cons; [|]); try apply Forall_nil;
    all_ix; try discriminate Hc;
    first [ neg_at i0 | neg_at i1 | neg_at i2 | neg_at i3 ].
Qed.

Lemma reclip_one (n : vector) (d : Q) (t tet : Tetrahedron) :
  (forall i, keptVertex n d t (distance (n, d) t) (tget tet i)) ->
  (exists i j, tget tet i = tget t j /\ distance (n, d) t j < 0) ->
  fst (splitCases (distance (n, d) tet) (classify (distance (n, d) tet)) tet [])
  = [tet].
Proof.
  intros Hk (i & j & E & Hj).
  pose proof (classify_classified (distance (n, d) tet)) as Hc.
  rewrite (splitCases_no_pos _ _ tet []); [reflexivity | |].
  - apply (classified_no_pos _ _ Hc). intros i' Hi'.
    unfold distance in Hi'; cbn [fst snd] in Hi'.
    destruct (Hk i') as [(j' & E' & Hj') | E'].
    + rewrite E' in Hi'. unfold distance in Hj'; cbn [fst snd] in Hj'. lra.
    + lra.
  - apply (classified_some_neg _ _ i Hc).
    unfold distance in *; cbn [fst snd] in *. rewrite E. exact Hj.
Qed.

(** X6. In exact arithmetic the clipper is idempotent: every tetrahedron it
    appends lies in the closed half-space and keeps a strictly negative
    vertex, so clipping it again by the same plane appends it back
    unchanged. *)
Theorem reclip_unchanged (h : hPlane) (t : Tetrahedron) :
  Forall (fun tet => forall buf, splitAndDecompose h tet buf = buf ++ [tet])
         (splitAndDecompose h t []).
Proof.
  destruct h as [n d].
  assert (HC : forall i, distance (n, d) t i == dot (tget t i) n - d)
    by (intro i; reflexivity).
  pose proof (classify_classified (distance (n, d) t)) as Hcl.
  destruct (kept_cases n d t (distance (n, d) t) HC _ Hcl) as [HF _].
  pose proof (negative_vertex_cases (distance (n, d) t) _ t Hcl) as HN.
  unfold splitAndDecompose at 2. unfold splitRun.
  rewrite Forall_forall in *. intros tet Hin buf.
  rewrite splitAndDecompose_append. unfold splitAndDecompose, splitRun.
  rewrite (reclip_one n d t tet (HF tet Hin) (HN tet Hin)). reflexivity.
Qed.

(** ** The clipped volume never exceeds the volume of the tetrahedron *)

Lemma volumeSum_nonneg (tets : list Tetrahedron) : 0 <= volumeSum tets.
Proof.
  unfold volumeSum.
  destruct (fold_accumulate tets (0, vzero)) as [Hv _]. cbn [fst] in Hv.
  pose proof (sumVolumes_nonneg tets). lra.
Qed.

Lemma clipped_volume_cases (T : Tetrahedron) (C : ix -> Q) (k : classes) :
  classified C k ->
  volumeSum (fst (splitCases C k T [])) <= tetVolume T.
Proof.
  intro Hk.
  destruct (pos k) as [| p ps] eqn:Ep; [destruct (neg k) as [| q qs] eqn:En |].
  - rewrite (splitCases_no_neg C k T [] En), volumeSum_0. apply tetVolume_nonneg.
  - rewrite (splitCases_no_pos C k T []); [| exact Ep | congruence].
    cbn [app]. rewrite volumeSum_1. lra.
  - pose proof (conservation_cases T C (fun i => - C i) k Hk
                  (fun i => Qeq_refl _)) as H.
    assert (Hflat : pos k = [] -> neg k = [] -> tetVolume T == 0)
      by (intros E; congruence).
    specialize (H Hflat).
    pose proof (volumeSum_nonneg
                  (fst (splitCases (fun i => - C i) (swapped k) T []))).
    lra.
Qed.

(** X7. In exact arithmetic, for every plane, the volume
    [getVolumeAndCentre] reports for the tetrahedra kept by
    [splitAndDecompose] is at most the volume of the clipped
    tetrahedron. *)
Theorem clipped_volume_bound (VSMALL : Q) (h : hPlane) (T : Tetrahedron) :
  fst (getVolumeAndCentre VSMALL (splitAndDecompose h T []))
  <= fst (getVolumeAndCentre VSMALL [T]).
Proof.
  rewrite !getVolume_volumeSum, volumeSum_1.
  unfold splitAndDecompose, splitRun.
  apply clipped_volume_cases. apply classify_classified.
Qed.

(** ** Conservation of the first moment *)

#[global] Instance moment4_Proper :
  Proper (veq ==> veq ==> veq ==> veq ==> veq) moment4.
Proof.
  intros a a' Ha b b' Hb c c' Hc d d' Hd.
  unfold moment4, tetMoment. change (tetVolume (mkTet a b c d)) with (vol4 a b c d).
  change (tetVolume (mkTet a' b' c' d')) with (vol4 a' b' c' d').
  unfold tetCentre; cbn [t0 t1 t2 t3]. rewrite Ha, Hb, Hc, Hd. reflexivity.
Qed.

Lemma tetMoment_perm (t : Tetrahedron) (i j k l : ix) :
  covers [i; j; k; l] = true ->
  veq (tetMoment t) (moment4 (tget t i) (tget t j) (tget t k) (tget t l)).
Proof.
  intro H. unfold moment4, tetMoment.
  change (tetVolume (mkTet (tget t i) (tget t j) (tget t k) (tget t l)))
    with (vol4 (tget t i) (tget t j) (tget t k) (tget t l)).
  rewrite <- (tetVolume_perm t i j k l H).
  destruct i, j, k, l; try discriminate H;
    unfold veq, tetCentre, vscale, vadd; cbn [tget t0 t1 t2 t3 vx vy vz];
    repeat split; ring.
Qed.

Lemma moment_corners (X : Tetrahedron) (i j k l : ix) (A B C D : point) :
  covers [i; j; k; l] = true ->
  corners X i j k l A B C D ->
  veq (tetMoment X) (moment4 A B C D).
Proof.
  intros Hc (HA & HB & HC & HD).
  rewrite (tetMoment_perm X i j k l Hc), HA, HB, HC, HD. reflexivity.
Qed.

(** Proves an identity between sums of moments once every volume has
    been rewritten as a multiple of one reference volume. *)
Ltac moment_ring :=
  match goal with |- context [vol4 ?a ?b ?c ?d] => generalize (vol4 a b c d) end;
  intro;
  cbv [moment4 tetMoment tetCentre lerp veq vadd vscale t0 t1 t2 t3 vx vy vz];
  repeat split; ring.

Ltac fold_vol4 :=
  unfold moment4, tetMoment;
  change (tetVolume (mkTet ?a ?b ?c ?d)) with (vol4 a b c d).

Lemma moments31 (P0 P1 P2 N : point) (a0 a1 a2 : Q) :
  0 < a0 < 1 -> 0 < a1 < 1 -> 0 < a2 < 1 ->
  let I0 := lerp a0 P0 N in
  let I1 := lerp a1 P1 N in
  let I2 := lerp a2 P2 N in
  veq (vadd (moment4 I0 I1 I2 N)
            (vadd (vadd (moment4 P0 P1 P2 I0) (moment4 I0 P1 P2 I1))
                  (moment4 P2 I1 I2 I0)))
      (moment4 P0 P1 P2 N).
Proof.
  intros H0 H1 H2 I0 I1 I2. subst I0 I1 I2. fold_vol4.
  rewrite (corner_volume P0 P1 P2 N a0 a1 a2 H0 H1 H2),
          (frustum_volume_1 P0 P1 P2 N a0 H0),
          (frustum_volume_2 P0 P1 P2 N a0 a1 H0 H1),
          (frustum_volume_3 P0 P1 P2 N a0 a1 a2 H0 H1 H2).
  moment_ring.
Qed.

Lemma moments22 (P0 P1 N0 N1 : point) (a00 a10 a01 a11 : Q) :
  0 < a00 < 1 -> 0 < a10 < 1 -> 0 < a01 < 1 -> 0 < a11 < 1 ->
  let I00 := lerp a00 P0 N0 in
  let I10 := lerp a10 P1 N0 in
  let I01 := lerp a01 P0 N1 in
  let I11 := lerp a11 P1 N1 in
  veq (vadd (vadd (vadd (moment4 I01 I10 N0 N1) (moment4 N1 I11 I01 I10))
                  (moment4 N0 I00 I10 I01))
            (vadd (vadd (moment4 P0 P1 I10 I01) (moment4 P1 I11 I10 I01))
                  (moment4 P0 I00 I01 I10)))
      (moment4 P0 P1 N0 N1).
Proof.
  intros H00 H10 H01 H11 I00 I10 I01 I11. subst I00 I10 I01 I11. fold_vol4.
  rewrite (prism_volume_1 P0 P1 N0 N1 a10 a01 H10 H01),
          (prism_volume_2 P0 P1 N0 N1 a10 a01 a11 H10 H01 H11),
          (prism_volume_3 P0 P1 N0 N1 a00 a10 a01 H00 H10 H01),
          (prism_volume_1' P0 P1 N0 N1 a10 a01 H10 H01),
          (prism_volume_2' P0 P1 N0 N1 a10 a01 a11 H10 H01 H11),
          (prism_volume_3' P0 P1 N0 N1 a00 a10 a01 H00 H10 H01).
  moment_ring.
Qed.

Lemma moments211 (P0 P1 N Z : point) (a0 a1 : Q) :
  0 < a0 < 1 -> 0 < a1 < 1 ->
  let I0 := lerp a0 P0 N in
  let I1 := lerp a1 P1 N in
  veq (vadd (moment4 I0 I1 N Z)
            (vadd (moment4 P0 P1 I0 Z) (moment4 I1 Z P1 I0)))
      (moment4 P0 P1 N Z).
Proof.
  intros H0 H1 I0 I1. subst I0 I1. fold_vol4.
  rewrite (wedge_volume P0 P1 N Z a0 a1 H0 H1),
          (pyramid_volume_1 P0 P1 N Z a0 H0),
          (pyramid_volume_2 P0 P1 N Z a0 a1 H0 H1).
  moment_ring.
Qed.

Lemma moments112 (P N Z0 Z1 : point) (a : Q) :
  0 < a < 1 ->
  let I := lerp a P N in
  veq (vadd (moment4 I N Z0 Z1) (moment4 P I Z0 Z1)) (moment4 P N Z0 Z1).
Proof.
  intros Ha I. subst I. fold_vol4.
  rewrite (sliver_volume P N Z0 Z1 a Ha), (sliver_volume' P N Z0 Z1 a Ha).
  moment_ring.
Qed.

Lemma momentSum_0 : veq (momentSum []) vzero.
Proof. reflexivity. Qed.

Lemma momentSum_1 (a : Tetrahedron) : veq (momentSum [a]) (tetMoment a).
Proof.
  cbv [momentSum fold_left accumulate fst snd]. apply vadd_zero_l.
Qed.

Lemma momentSum_2 (a b : Tetrahedron) :
  veq (momentSum [a; b]) (vadd (tetMoment a) (tetMoment b)).
Proof.
  cbv [momentSum fold_left accumulate fst snd]. fold (tetMoment a) (tetMoment b).
  rewrite vadd_zero_l. reflexivity.
Qed.

Lemma momentSum_3 (a b c : Tetrahedron) :
  veq (momentSum [a; b; c]) (vadd (vadd (tetMoment a) (tetMoment b)) (tetMoment c)).
Proof.
  cbv [momentSum fold_left accumulate fst snd].
  fold (tetMoment a) (tetMoment b) (tetMoment c).
  rewrite vadd_zero_l. reflexivity.
Qed.

Lemma vadd_comm (a b : vector) : veq (vadd a b) (vadd b a).
Proof. cbv [veq vadd vx vy vz]. repeat split; ring. Qed.

Section MomentsByIndex.

Variable T : Tetrahedron.

Lemma split31_moments (X Y Z W : Tetrahedron) (p0 p1 p2 n0 : ix) (a0 a1 a2 : Q) :
  covers [p0; p1; p2; n0] = true ->
  0 < a0 < 1 -> 0 < a1 < 1 -> 0 < a2 < 1 ->
  let P0 := tget T p0 in
  let P1 := tget T p1 in
  let P2 := tget T p2 in
  let N := tget T n0 in
  let I0 := lerp a0 P0 N in
  let I1 := lerp a1 P1 N in
  let I2 := lerp a2 P2 N in
  corners X p0 p1 p2 n0 I0 I1 I2 N ->
  corners Y p0 p1 p2 n0 P0 P1 P2 I0 ->
  corners Z i0 i1 i2 i3 I0 P1 P2 I1 ->
  corners W i0 i1 i2 i3 P2 I1 I2 I0 ->
  veq (vadd (tetMoment X) (vadd (vadd (tetMoment Y) (tetMoment Z)) (tetMoment W)))
      (tetMoment T).
Proof.
  intros Hc H0 H1 H2 P0 P1 P2 N I0 I1 I2 HX HY HZ HW.
  rewrite (moment_corners _ _ _ _ _ _ _ _ _ Hc HX),
          (moment_corners _ _ _ _ _ _ _ _ _ Hc HY),
          (moment_corners _ _ _ _ _ _ _ _ _ covers_id HZ),
          (moment_corners _ _ _ _ _ _ _ _ _ covers_id HW),
          (tetMoment_perm T _ _ _ _ Hc).
  apply moments31; assumption.
Qed.

Lemma split22_moments (X Y Z X' Y' Z' : Tetrahedron) (p0 p1 n0 n1 : ix)
    (a00 a10 a01 a11 : Q) :
  covers [p0; p1; n0; n1] = true ->
  0 < a00 < 1 -> 0 < a10 < 1 -> 0 < a01 < 1 -> 0 < a11 < 1 ->
  let P0 := tget T p0 in
  let P1 := tget T p1 in
  let N0 := tget T n0 in
  let N1 := tget T n1 in
  let I00 := lerp a00 P0 N0 in
  let I10 := lerp a10 P1 N0 in
  let I01 := lerp a01 P0 N1 in
  let I11 := lerp a11 P1 N1 in
  corners X p0 p1 n0 n1 I01 I10 N0 N1 ->
  corners Y i0 i1 i2 i3 N1 I11 I01 I10 ->
  corners Z i0 i1 i2 i3 N0 I00 I10 I01 ->
  corners X' p0 p1 n0 n1 P0 P1 I10 I01 ->
  corners Y' i0 i1 i2 i3 P1 I11 I10 I01 ->
  corners Z' i0 i1 i2 i3 P0 I00 I01 I10 ->
  veq (vadd (vadd (vadd (tetMoment X) (tetMoment Y)) (tetMoment Z))
            (vadd (vadd (tetMoment X') (tetMoment Y')) (tetMoment Z')))
      (tetMoment T).
Proof.
  intros Hc H00 H10 H01 H11 P0 P1 N0 N1 I00 I10 I01 I11 HX HY HZ HX' HY' HZ'.
  rewrite (moment_corners _ _ _ _ _ _ _ _ _ Hc HX),
          (moment_corners _ _ _ _ _ _ _ _ _ Hc HX'),
          (moment_corners _ _ _ _ _ _ _ _ _ covers_id HY),
          (moment_corners _ _ _ _ _ _ _ _ _ covers_id HZ),
          (moment_corners _ _ _ _ _ _ _ _ _ covers_id HY'),
          (moment_corners _ _ _ _ _ _ _ _ _ covers_id HZ'),
          (tetMoment_perm T _ _ _ _ Hc).
  apply moments22; assumption.
Qed.

Lemma split211_moments (X X' Y' : Tetrahedron) (p0 p1 n0 z0 : ix) (a0 a1 : Q) :
  covers [p0; p1; n0; z0] = true ->
  0 < a0 < 1 -> 0 < a1 < 1 ->
  let P0 := tget T p0 in
  let P1 := tget T p1 in
  let N := tget T n0 in
  let Z := tget T z0 in
  let I0 := lerp a0 P0 N in
  let I1 := lerp a1 P1 N in
  corners X p0 p1 n0 z0 I0 I1 N Z ->
  corners X' p0 p1 n0 z0 P0 P1 I0 Z ->
  corners Y' i0 i1 i2 i3 I1 Z P1 I0 ->
  veq (vadd (tetMoment X) (vadd (tetMoment X') (tetMoment Y'))) (tetMoment T).
Proof.
  intros Hc H0 H1 P0 P1 N Z I0 I1 HX HX' HY'.
  rewrite (moment_corners _ _ _ _ _ _ _ _ _ Hc HX),
          (moment_corners _ _ _ _ _ _ _ _ _ Hc HX'),
          (moment_corners _ _ _ _ _ _ _ _ _ covers_id HY'),
          (tetMoment_perm T _ _ _ _ Hc).
  apply moments211; assumption.
Qed.

Lemma split112_moments (X X' : Tetrahedron) (p n z0 z1 : ix) (a : Q) :
  covers [p; n; z0; z1] = true ->
  0 < a < 1 ->
  let P := tget T p in
  let N := tget T n in
  let I := lerp a P N in
  corners X p n z0 z1 I N (tget T z0) (tget T z1) ->
  corners X' p n z0 z1 P I (tget T z0) (tget T z1) ->
  veq (vadd (tetMoment X) (tetMoment X')) (tetMoment T).
Proof.
  intros Hc Ha P N I HX HX'.
  rewrite (moment_corners _ _ _ _ _ _ _ _ _ Hc HX),
          (moment_corners _ _ _ _ _ _ _ _ _ Hc HX'),
          (tetMoment_perm T _ _ _ _ Hc).
  apply moments112; assumption.
Qed.

End MomentsByIndex.

Section MomentConservation.

Variable T : Tetrahedron.
Variables C C' : ix -> Q.
Hypothesis HC' : forall i, C' i == - C i.

Lemma conserve31_moments (p0 p1 p2 n0 : ix) :
  covers [p0; p1; p2; n0] = true ->
  0 < C p0 -> 0 < C p1 -> 0 < C p2 -> C n0 < 0 ->
  veq (vadd (momentSum (fst (splitCases C (mkClasses [p0; p1; p2] [n0] []) T [])))
            (momentSum (fst (splitCases C' (mkClasses [n0] [p0; p1; p2] []) T []))))
      (tetMoment T).
Proof.
  intros Hc H0 H1 H2 Hn. run_split.
  rewrite momentSum_1, momentSum_3.
  destruct p0, p1, p2, n0; try discriminate Hc;
    match type of Hc with
    | covers [?a; ?b; ?c; ?d] = true =>
        apply (split31_moments T _ _ _ _ a b c d
                 (fst (edgeWeights (C a) (C d)))
                 (fst (edgeWeights (C b) (C d)))
                 (fst (edgeWeights (C c) (C d))))
    end; corners_tac HC'.
Qed.

Lemma conserve22_moments (p0 p1 n0 n1 : ix) :
  covers [p0; p1; n0; n1] = true ->
  0 < C p0 -> 0 < C p1 -> C n0 < 0 -> C n1 < 0 ->
  veq (vadd (momentSum (fst (splitCases C (mkClasses [p0; p1] [n0; n1] []) T [])))
            (momentSum (fst (splitCases C' (mkClasses [n0; n1] [p0; p1] []) T []))))
      (tetMoment T).
Proof.
  intros Hc H0 H1 Hn0 Hn1. run_split.
  rewrite !momentSum_3.
  destruct p0, p1, n0, n1; try discriminate Hc;
    match type of Hc with
    | covers [?a; ?b; ?c; ?d] = true =>
        apply (split22_moments T _ _ _ _ _ _ a b c d
                 (fst (edgeWeights (C a) (C c)))
                 (fst (edgeWeights (C b) (C c)))
                 (fst (edgeWeights (C a) (C d)))
                 (fst (edgeWeights (C b) (C d))))
    end; corners_tac HC'.
Qed.

Lemma conserve211_moments (p0 p1 n0 z0 : ix) :
  covers [p0; p1; n0; z0] = true ->
  0 < C p0 -> 0 < C p1 -> C n0 < 0 ->
  veq (vadd (momentSum (fst (splitCases C (mkClasses [p0; p1] [n0] [z0]) T [])))
            (momentSum (fst (splitCases C' (mkClasses [n0] [p0; p1] [z0]) T []))))
      (tetMoment T).
Proof.
  intros Hc H0 H1 Hn. run_split.
  rewrite momentSum_1, momentSum_2.
  destruct p0, p1, n0, z0; try discriminate Hc;
    match type of Hc with
    | covers [?a; ?b; ?c; ?d] = true =>
        apply (split211_moments T _ _ _ a b c d
                 (fst (edgeWeights (C a) (C c)))
                 (fst (edgeWeights (C b) (C c))))
    end; corners_tac HC'.
Qed.

Lemma conserve112_moments (p n z0 z1 : ix) :
  covers [p; n; z0; z1] = true ->
  0 < C p -> C n < 0 ->
  veq (vadd (momentSum (fst (splitCases C (mkClasses [p] [n] [z0; z1]) T [])))
            (momentSum (fst (splitCases C' (mkClasses [n] [p] [z0; z1]) T []))))
      (tetMoment T).
Proof.
  intros Hc Hp Hn. run_split.
  rewrite !momentSum_1.
  destruct p, n, z0, z1; try discriminate Hc;
    match type of Hc with
    | covers [?a; ?b; ?c; ?d] = true =>
        apply (split112_moments T _ _ a b c d (fst (edgeWeights (C a) (C b))))
    end; corners_tac HC'.
Qed.

End MomentConservation.

Lemma conservation_moment_cases (T : Tetrahedron) (C C' : ix -> Q) (k : classes) :
  classified C k ->
  (forall i, C' i == - C i) ->
  (pos k = [] -> neg k = [] -> tetVolume T == 0) ->
  veq (vadd (momentSum (fst (splitCases C k T [])))
            (momentSum (fst (splitCases C' (swapped k) T []))))
      (tetMoment T).
Proof.
  intros [Hp Hn Hz Hc] HC' Hflat.
  assert (HC : forall i, C i == - C' i) by (intro i; rewrite (HC' i); ring).
  destruct k as [ps ns zs]; unfold swapped; cbn [pos neg zero] in *.
  class_shapes ps ns zs Hc; forall_inv;
    lazymatch goal with
    | |- veq (vadd (momentSum (fst (splitCases _ (mkClasses [_; _; _] [_] []) _ _))) _) _ =>
        apply (conserve31_moments T C C' HC'); assumption
    | |- veq (vadd (momentSum (fst (splitCases _ (mkClasses [_; _] [_; _] []) _ _))) _) _ =>
        apply (conserve22_moments T C C' HC'); assumption
    | |- veq (vadd (momentSum (fst (splitCases _ (mkClasses [_; _] [_] [_]) _ _))) _) _ =>
        apply (conserve211_moments T C C' HC'); assumption
    | |- veq (vadd (momentSum (fst (splitCases _ (mkClasses [_] [_] [_; _]) _ _))) _) _ =>
        apply (conserve112_moments T C C' HC'); assumption
    | |- veq (vadd (momentSum (fst (splitCases _ (mkClasses [_] [_; _; _] []) _ _))) _) _ =>
        rewrite vadd_comm; apply (conserve31_moments T C' C HC);
        [ apply covers_rot; assumption
        | match goal with |- context [C' ?i] => pose proof (HC' i); lra end .. ]
    | |- veq (vadd (momentSum (fst (splitCases _ (mkClasses [_] [_; _] [_]) _ _))) _) _ =>
        rewrite vadd_comm; apply (conserve211_moments T C' C HC);
        [ apply covers_rot3; assumption
        | match goal with |- context [C' ?i] => pose proof (HC' i); lra end .. ]
    | |- _ =>
        run_split; rewrite ?momentSum_0, ?momentSum_1;
        first [ apply vadd_zero_l
              | apply vadd_zero_r
              | unfold tetMoment; rewrite (Hflat eq_refl eq_refl);
                cbv [veq vadd vscale vzero vx vy vz]; repeat split; ring ]
    end.
Qed.

Lemma aggregate_moment (VSMALL : Q) (tets : list Tetrahedron) :
  0 < VSMALL ->
  veq (vscale (fst (getVolumeAndCentre VSMALL tets) + VSMALL)
              (snd (getVolumeAndCentre VSMALL tets)))
      (momentSum tets).
Proof.
  intro Heps. pose proof (volumeSum_nonneg tets) as Hv.
  unfold getVolumeAndCentre, momentSum, volumeSum in *.
  destruct (fold_left accumulate tets (0, vzero)) as [v c]. cbn [fst snd] in *.
  cbv [veq vscale vdiv vx vy vz]. repeat split; field; lra.
Qed.

(** X8. The first moments are conserved as well: for a plane with non-zero
    normal, the volume-weighted centres recovered from the results of
    [getVolumeAndCentre] on the two sides, [(V + VSMALL) C], add up to
    that of the clipped tetrahedron.  So the centroid of the part behind
    the plane can be obtained from the two aggregates. *)
Theorem clipper_moment_conservation (VSMALL : Q) (n : vector) (d : Q)
    (T : Tetrahedron) :
  ~ veq n vzero -> 0 < VSMALL ->
  let inside := getVolumeAndCentre VSMALL (splitAndDecompose (n, d) T []) in
  let outside :=
    getVolumeAndCentre VSMALL (splitAndDecompose (opposite (n, d)) T []) in
  let whole := getVolumeAndCentre VSMALL [T] in
  veq (vadd (vscale (fst inside + VSMALL) (snd inside))
            (vscale (fst outside + VSMALL) (snd outside)))
      (vscale (fst whole + VSMALL) (snd whole)).
Proof.
  intros Hn Heps inside outside whole. subst inside outside whole.
  rewrite !(aggregate_moment VSMALL _ Heps), momentSum_1.
  unfold splitAndDecompose. rewrite splitRun_opposite. unfold splitRun.
  apply conservation_moment_cases.
  - apply classify_classified.
  - apply distance_opposite.
  - intros Ep En. apply (flat_volume n d T Hn).
    exact (classified_all_zero _ _ (classify_classified _) Ep En).
Qed.

Lemma clipper_moment_conservation_witness :
  ~ veq (mkVec 1 0 0) vzero /\ 0 < (1 # 1000) /\
  veq (vadd (vscale (fst (getVolumeAndCentre (1 # 1000)
                            (splitAndDecompose (mkVec 1 0 0, 1 # 2) unitTet []))
                     + (1 # 1000))
                    (snd (getVolumeAndCentre (1 # 1000)
                            (splitAndDecompose (mkVec 1 0 0, 1 # 2) unitTet []))))
            (vscale (fst (getVolumeAndCentre (1 # 1000)
                            (splitAndDecompose (opposite (mkVec 1 0 0, 1 # 2))
                                               unitTet []))
                     + (1 # 1000))
                    (snd (getVolumeAndCentre (1 # 1000)
                            (splitAndDecompose (opposite (mkVec 1 0 0, 1 # 2))
                                               unitTet [])))))
      (vscale (fst (getVolumeAndCentre (1 # 1000) [unitTet]) + (1 # 1000))
              (snd (getVolumeAndCentre (1 # 1000) [unitTet]))).
Proof.
  assert (Hn : ~ veq (mkVec 1 0 0) vzero).
  { cbv [veq vzero vx vy vz]. intros (H & _). discriminate H. }
  split; [exact Hn |]. split; [reflexivity |].
  exact (clipper_moment_conservation (1 # 1000) (mkVec 1 0 0) (1 # 2) unitTet
           Hn eq_refl).
Defined.

(** ** Rescaling the plane *)

Lemma Qltb_scale (s x x' : Q) :
  0 < s -> x' == s * x -> Qltb 0 x' = Qltb 0 x /\ Qltb x' 0 = Qltb x 0.
Proof.
  intros Hs H.
  destruct (sign_cases x) as [(A1 & A2 & A) | [(A1 & A2 & A) | (A1 & A2 & A)]];
    rewrite A1, A2; split;
    first [ apply Qltb_true; nra | apply Qltb_false; nra ].
Qed.

Lemma classify_scale (s : Q) (C C' : ix -> Q) :
  0 < s -> (forall i, C' i == s * C i) -> classify C' = classify C.
Proof.
  intros Hs H. unfold classify. generalize (mkClasses [] [] []).
  induction [i0; i1; i2; i3] as [| i l IH]; intro k; cbn [fold_left].
  - reflexivity.
  - unfold classifyStep at 2 4.
    destruct (Qltb_scale s (C i) (C' i) Hs (H i)) as [-> ->]. apply IH.
Qed.

Lemma edgeCut_scale (s Cp Cq Cp' Cq' : Q) (P N : point) :
  0 < s -> 0 < Cp -> Cq < 0 -> Cp' == s * Cp -> Cq' == s * Cq ->
  veq (edgeCut Cp' Cq' P N) (edgeCut Cp Cq P N).
Proof.
  intros Hs Hp Hq Ep Eq.
  cbv [edgeCut edgeWeights veq vadd vscale vx vy vz].
  rewrite Ep, Eq. repeat split; field; split; nra.
Qed.

Ltac scaled_vertex s Hs HC' :=
  lazymatch goal with
  | |- veq (edgeCut ?a' ?b' ?P ?N) (edgeCut ?a ?b ?P ?N) =>
      apply (edgeCut_scale s a b a' b' P N);
      [exact Hs | assumption | assumption | apply HC' | apply HC']
  | |- veq ?a ?a => reflexivity
  end.

Lemma scaled_cases (s : Q) (C C' : ix -> Q) (k : classes) (t : Tetrahedron) :
  0 < s -> (forall i, C' i == s * C i) ->
  classified C k ->
  Forall2 teq (fst (splitCases C' k t [])) (fst (splitCases C k t [])).
Proof.
  intros Hs HC' [Hp Hn Hz Hc].
  destruct k as [ps ns zs]; cbn [pos neg zero] in *.
  class_shapes ps ns zs Hc; forall_inv; run_split;
    repeat (apply Forall2_cons; [|]); try apply Forall2_nil;
    all_ix; try discriminate Hc;
    unfold teq; cbn [tget tset t0 t1 t2 t3];
    refine (conj _ (conj _ (conj _ _))); scaled_vertex s Hs HC'.
Qed.

(** X9. The normal need not have unit length: multiplying the normal and
    the offset of the plane by the same positive factor leaves the
    appended tetrahedra unchanged (vertex by vertex, in exact
    arithmetic). *)
Theorem plane_rescaling (s : Q) (n : vector) (d : Q) (t : Tetrahedron) :
  0 < s ->
  Forall2 teq (splitAndDecompose (vscale s n, s * d) t [])
              (splitAndDecompose (n, d) t []).
Proof.
  intro Hs.
  assert (HC' : forall i, distance (vscale s n, s * d) t i == s * distance (n, d) t i).
  { intro i. cbv [distance dot vscale fst snd vx vy vz]. ring. }
  unfold splitAndDecompose, splitRun.
  rewrite (classify_scale s (distance (n, d) t) _ Hs HC').
  apply (scaled_cases s _ _ _ t Hs HC'). apply classify_classified.
Qed.

Lemma plane_rescaling_witness :
  0 < 3 /\
  Forall2 teq (splitAndDecompose (vscale 3 (mkVec 1 1 0), 3 * (1 # 2)) unitTet [])
              (splitAndDecompose (mkVec 1 1 0, 1 # 2) unitTet []).
Proof.
  split; [reflexivity |].
  exact (plane_rescaling 3 (mkVec 1 1 0) (1 # 2) unitTet eq_refl).
Defined.

(** ** Aggregating over several lists *)

Lemma sumVolumes_app (l1 l2 : list Tetrahedron) :
  sumVolumes (l1 ++ l2) == sumVolumes l1 + sumVolumes l2.
Proof.
  induction l1 as [| t l1 IH]; cbn [app sumVolumes]; [ring | rewrite IH; ring].
Qed.

Lemma sumMoments_app (l1 l2 : list Tetrahedron) :
  veq (sumMoments (l1 ++ l2)) (vadd (sumMoments l1) (sumMoments l2)).
Proof.
  induction l1 as [| t l1 IH]; cbn [app sumMoments].
  - symmetry. apply vadd_zero_l.
  - rewrite IH. symmetry. apply vadd_assoc.
Qed.

Lemma sumVolumes_perm (l l' : list Tetrahedron) :
  Permutation l l' -> sumVolumes l == sumVolumes l'.
Proof.
  induction 1; cbn [sumVolumes]; try lra.
Qed.

Lemma sumMoments_perm (l l' : list Tetrahedron) :
  Permutation l l' -> veq (sumMoments l) (sumMoments l').
Proof.
  induction 1; cbn [sumMoments].
  - reflexivity.
  - rewrite IHPermutation. reflexivity.
  - rewrite <- !vadd_assoc, (vadd_comm (vscale _ (vertexMean x))). reflexivity.
  - etransitivity; eassumption.
Qed.

(** X10. The order in which the tetrahedra are stored does not matter:
    [getVolumeAndCentre] returns the same volume and the same centre for
    every permutation of the list. *)
Theorem aggregate_permutation (VSMALL : Q) (l l' : list Tetrahedron) :
  Permutation l l' ->
  fst (getVolumeAndCentre VSMALL l) == fst (getVolumeAndCentre VSMALL l') /\
  veq (snd (getVolumeAndCentre VSMALL l)) (snd (getVolumeAndCentre VSMALL l')).
Proof.
  intro H.
  destruct (getVolumeAndCentre_sums VSMALL l) as [Ev Ec].
  destruct (getVolumeAndCentre_sums VSMALL l') as [Ev' Ec'].
  rewrite Ev, Ev', Ec, Ec', (sumVolumes_perm l l' H), (sumMoments_perm l l' H).
  split; reflexivity.
Qed.

Lemma aggregate_permutation_witness :
  Permutation [unitTet; flatTet] [flatTet; unitTet] /\
  fst (getVolumeAndCentre (1 # 1000) [unitTet; flatTet])
  == fst (getVolumeAndCentre (1 # 1000) [flatTet; unitTet]).
Proof.
  split; [apply perm_swap |].
  apply (aggregate_permutation (1 # 1000) [unitTet; flatTet] [flatTet; unitTet]).
  apply perm_swap.
Defined.

Lemma momentSum_sumMoments (tets : list Tetrahedron) :
  veq (momentSum tets) (sumMoments tets).
Proof.
  unfold momentSum.
  destruct (fold_accumulate tets (0, vzero)) as [_ Hc]. cbn [snd] in Hc.
  rewrite Hc. apply vadd_zero_l.
Qed.

(** X11. In exact arithmetic two buffers can be aggregated separately:
    the volume of a concatenation is the sum of the volumes, and its
    volume-weighted centre [(V + VSMALL) C] is the sum of the
    volume-weighted centres. *)
Theorem aggregate_append (VSMALL : Q) (l1 l2 : list Tetrahedron) :
  0 < VSMALL ->
  let r := getVolumeAndCentre VSMALL (l1 ++ l2) in
  let r1 := getVolumeAndCentre VSMALL l1 in
  let r2 := getVolumeAndCentre VSMALL l2 in
  fst r == fst r1 + fst r2 /\
  veq (vscale (fst r + VSMALL) (snd r))
      (vadd (vscale (fst r1 + VSMALL) (snd r1)) (vscale (fst r2 + VSMALL) (snd r2))).
Proof.
  intros Heps r r1 r2. subst r r1 r2. split.
  - destruct (getVolumeAndCentre_sums VSMALL (l1 ++ l2)) as [-> _].
    destruct (getVolumeAndCentre_sums VSMALL l1) as [-> _].
    destruct (getVolumeAndCentre_sums VSMALL l2) as [-> _].
    apply sumVolumes_app.
  - rewrite !(aggregate_moment VSMALL _ Heps), !momentSum_sumMoments.
    apply sumMoments_app.
Qed.

Lemma aggregate_append_witness :
  0 < (1 # 1000) /\
  fst (getVolumeAndCentre (1 # 1000) ([unitTet] ++ [flatTet]))
  == fst (getVolumeAndCentre (1 # 1000) [unitTet])
     + fst (getVolumeAndCentre (1 # 1000) [flatTet]).
Proof.
  split; [reflexivity |].
  apply (aggregate_append (1 # 1000) [unitTet] [flatTet]). reflexivity.
Defined.



(** ** decomposeCell: the scan for the fourth point *)

Lemma fillFourth_find (points : pointField) (xT : point) (f0 f1 f2 : label)
    (secondFace : list label) (s : slots) :
  fillFourth points xT f0 f1 f2 secondFace s
  = match find (isolated f0 f1 f2) secondFace with
    | Some u => p <- nth_error points u ;; Some (sset s i3 (vsub p xT))
    | None => Some s
    end.
Proof.
  induction secondFace as [| l rest IH]; cbn [fillFourth find]; [reflexivity |].
  unfold isolated at 1.
  destruct (negb (Nat.eqb l f0) && negb (Nat.eqb l f1) && negb (Nat.eqb l f2));
    [reflexivity | exact IH].
Qed.

(** X13. In a cell with four faces the fourth vertex is the first vertex of
    the second face, in face order, that differs from the first three
    vertices of the first face; any later such vertex is ignored. *)
Theorem fourth_vertex_first (mesh : polyMesh) (points : pointField)
    (cellIndex : label) (xC xT : point) (buf : list Tetrahedron)
    (c0 c1 c2 c3 f0 f1 f2 u : label) (firstTail secondFace : list label)
    (p0 p1 p2 pu : point) :
  nth_error (cells mesh) cellIndex = Some [c0; c1; c2; c3] ->
  nth_error (faces mesh) c0 = Some (f0 :: f1 :: f2 :: firstTail) ->
  nth_error (faces mesh) c1 = Some secondFace ->
  find (isolated f0 f1 f2) secondFace = Some u ->
  nth_error points f0 = Some p0 ->
  nth_error points f1 = Some p1 ->
  nth_error points f2 = Some p2 ->
  nth_error points u = Some pu ->
  decomposeCell mesh points cellIndex xC buf xT
  = Some [mkTet (vsub p0 xT) (vsub p1 xT) (vsub p2 xT) (vsub pu xT)].
Proof.
  intros Hcell Hf0 Hf1 Hfind H0 H1 H2 Hu.
  unfold decomposeCell. rewrite Hcell. cbn [bindO length Nat.eqb nth_error].
  rewrite Hf0, Hf1. cbn [bindO nth_error]. rewrite H0, H1, H2. cbn [bindO].
  rewrite fillFourth_find, Hfind, Hu. reflexivity.
Qed.

(** A second face with two vertices outside the first face: the first
    one, label 3, is taken, label 4 is ignored. *)
Lemma fourth_vertex_first_witness :
  decomposeCell (mkMesh [[0; 2; 1]; [0; 1; 3; 4]; [1; 2; 3]; [0; 3; 2]]%nat
                        [[0; 1; 2; 3]]%nat)
                (tetPoints ++ [mkVec 7 7 7]) 0%nat vzero [] vzero
  = Some [mkTet (vsub (mkVec 0 0 0) vzero) (vsub (mkVec 0 1 0) vzero)
                (vsub (mkVec 1 0 0) vzero) (vsub (mkVec 0 0 1) vzero)].
Proof.
  apply (fourth_vertex_first _ _ 0%nat vzero vzero []
           0%nat 1%nat 2%nat 3%nat 0%nat 2%nat 1%nat 3%nat [] [0; 1; 3; 4]%nat);
    reflexivity.
Defined.

(** X14. When every vertex of the second face is among the first three
    vertices of the first face, the scan assigns nothing: the fourth
    slot of [tmpTetra] is appended without ever having been written,
    and the call has no defined result. *)
Theorem fourth_vertex_missing (mesh : polyMesh) (points : pointField)
    (cellIndex : label) (xC xT : point) (buf : list Tetrahedron)
    (c0 c1 c2 c3 f0 f1 f2 : label) (firstTail secondFace : list label) :
  nth_error (cells mesh) cellIndex = Some [c0; c1; c2; c3] ->
  nth_error (faces mesh) c0 = Some (f0 :: f1 :: f2 :: firstTail) ->
  nth_error (faces mesh) c1 = Some secondFace ->
  (forall l, In l secondFace -> l = f0 \/ l = f1 \/ l = f2) ->
  (forall s, fillFourth points xT f0 f1 f2 secondFace s = Some s) /\
  decomposeCell mesh points cellIndex xC buf xT = None.
Proof.
  intros Hcell Hf0 Hf1 Hall.
  assert (Hfind : find (isolated f0 f1 f2) secondFace = None).
  { clear Hf1. induction secondFace as [| l rest IH]; cbn [find]; [reflexivity |].
    assert (El : isolated f0 f1 f2 l = false).
    { unfold isolated.
      destruct (Hall l (or_introl eq_refl)) as [-> | [-> | ->]];
        rewrite Nat.eqb_refl; cbn [negb andb]; rewrite ?andb_false_r; reflexivity. }
    rewrite El. apply IH. intros l' Hl'. apply Hall. right. exact Hl'. }
  assert (Hfill : forall s, fillFourth points xT f0 f1 f2 secondFace s = Some s).
  { intro s. rewrite fillFourth_find, Hfind. reflexivity. }
  split; [exact Hfill |].
  unfold decomposeCell. rewrite Hcell. cbn [bindO length Nat.eqb nth_error].
  rewrite Hf0, Hf1. cbn [bindO nth_error].
  destruct (nth_error points f0); cbn [bindO]; [| reflexivity].
  destruct (nth_error points f1); cbn [bindO]; [| reflexivity].
  destruct (nth_error points f2); cbn [bindO]; [| reflexivity].
  rewrite Hfill. reflexivity.
Qed.

Lemma fourth_vertex_missing_witness :
  decomposeCell (mkMesh [[0; 2; 1]; [1; 0; 2]; [1; 2; 3]; [0; 3; 2]]%nat
                        [[0; 1; 2; 3]]%nat)
                tetPoints 0%nat vzero [] vzero
  = None.
Proof.
  apply (fourth_vertex_missing _ tetPoints 0%nat vzero vzero []
           0%nat 1%nat 2%nat 3%nat 0%nat 2%nat 1%nat [] [1; 0; 2]%nat);
    try reflexivity.
  intros l [<- | [<- | [<- | []]]]; auto.
Defined.

(** ** decomposeCell: size and face order of the apex fan *)

Lemma faceTets_length (points : pointField) (xC xT : point) (f : face) :
  length (faceTets points xC xT f) = faceCount f.
Proof.
  unfold faceTets, faceCount. destruct (Nat.eqb (length f) 3); [reflexivity |].
  rewrite length_map, length_seq. reflexivity.
Qed.

Lemma general_cell_result (mesh : polyMesh) (points : pointField) (cellIndex : label)
    (xC xT : point) (buf : list Tetrahedron) (dCell : cell) :
  nth_error (cells mesh) cellIndex = Some dCell ->
  length dCell <> 4%nat ->
  cellInRange mesh points dCell ->
  decomposeCell mesh points cellIndex xC buf xT
  = Some (flat_map (fun fl => faceTets points xC xT (nth fl (faces mesh) [])) dCell).
Proof.
  intros Hcell H4 Hr. unfold decomposeCell. rewrite Hcell. cbn [bindO].
  apply Nat.eqb_neq in H4. rewrite H4.
  destruct (cell_loop mesh points xC xT dCell Hr (sset unassigned i3 (vsub xC xT)) []
              eq_refl) as (s' & E).
  rewrite E. reflexivity.
Qed.

(** X15. For a cell whose face count is not four and whose labels are in
    range, [decomposeCell] is defined and emits one tetrahedron per
    triangular face and [k] tetrahedra per face of [k <> 3] vertices. *)
Theorem general_cell_count (mesh : polyMesh) (points : pointField) (cellIndex : label)
    (xC xT : point) (buf : list Tetrahedron) (dCell : cell) :
  nth_error (cells mesh) cellIndex = Some dCell ->
  length dCell <> 4%nat ->
  cellInRange mesh points dCell ->
  exists tets,
    decomposeCell mesh points cellIndex xC buf xT = Some tets /\
    length tets = list_sum (map (fun fl => faceCount (nth fl (faces mesh) [])) dCell).
Proof.
  intros Hcell H4 Hr. eexists. split.
  - exact (general_cell_result mesh points cellIndex xC xT buf dCell Hcell H4 Hr).
  - clear. induction dCell as [| fl dCell IH]; cbn [flat_map map list_sum].
    + reflexivity.
    + rewrite length_app, faceTets_length, IH. reflexivity.
Qed.

Lemma general_cell_count_witness :
  exists tets,
    decomposeCell cubeMesh cubePoints 0%nat (mkVec half half half) [] vzero
    = Some tets /\
    length tets = 24%nat.
Proof.
  destruct (general_cell_count cubeMesh cubePoints 0%nat (mkVec half half half)
              vzero [] [0; 1; 2; 3; 4; 5]%nat) as (tets & E & L).
  - reflexivity.
  - cbn. lia.
  - exact cubeMesh_inRange.
  - exists tets. split; [exact E | exact L].
Defined.

Lemma cellInRange_perm (mesh : polyMesh) (points : pointField) (c c' : cell) :
  Permutation c c' -> cellInRange mesh points c -> cellInRange mesh points c'.
Proof.
  intros HP Hr fl Hin. apply Hr. apply (Permutation_in fl (Permutation_sym HP) Hin).
Qed.

(** X16. The order in which a cell lists its faces changes only the
    order of the emitted tetrahedra: two cells with the same faces in a
    different order (not four of them) give lists that are permutations
    of each other and, in exact arithmetic, the same aggregated volume
    and centre. *)
Theorem face_order_irrelevant (VSMALL : Q) (mesh : polyMesh) (points : pointField)
    (i j : label) (xC xT : point) (buf : list Tetrahedron) (c c' : cell) :
  nth_error (cells mesh) i = Some c ->
  nth_error (cells mesh) j = Some c' ->
  Permutation c c' ->
  length c <> 4%nat ->
  cellInRange mesh points c ->
  exists tets tets',
    decomposeCell mesh points i xC buf xT = Some tets /\
    decomposeCell mesh points j xC buf xT = Some tets' /\
    Permutation tets tets' /\
    fst (getVolumeAndCentre VSMALL tets) == fst (getVolumeAndCentre VSMALL tets') /\
    veq (snd (getVolumeAndCentre VSMALL tets)) (snd (getVolumeAndCentre VSMALL tets')).
Proof.
  intros Hi Hj HP H4 Hr.
  assert (H4' : length c' <> 4%nat) by (rewrite <- (Permutation_length HP); exact H4).
  pose proof (cellInRange_perm mesh points c c' HP Hr) as Hr'.
  eexists. eexists.
  split; [exact (general_cell_result mesh points i xC xT buf c Hi H4 Hr) |].
  split; [exact (general_cell_result mesh points j xC xT buf c' Hj H4' Hr') |].
  assert (HPt : Permutation
                  (flat_map (fun fl => faceTets points xC xT (nth fl (faces mesh) [])) c)
                  (flat_map (fun fl => faceTets points xC xT (nth fl (faces mesh) [])) c'))
    by (apply Permutation_flat_map; exact HP).
  split; [exact HPt |].
  destruct (getVolumeAndCentre_sums VSMALL
              (flat_map (fun fl => faceTets points xC xT (nth fl (faces mesh) [])) c))
    as [Ev Ec].
  destruct (getVolumeAndCentre_sums VSMALL
              (flat_map (fun fl => faceTets points xC xT (nth fl (faces mesh) [])) c'))
    as [Ev' Ec'].
  rewrite Ev, Ev', Ec, Ec', (sumVolumes_perm _ _ HPt), (sumMoments_perm _ _ HPt).
  split; reflexivity.
Qed.

Lemma face_order_irrelevant_witness :
  exists tets tets',
    decomposeCell twoCubes cubePoints 0%nat (mkVec half half half) [] vzero
    = Some tets /\
    decomposeCell twoCubes cubePoints 1%nat (mkVec half half half) [] vzero
    = Some tets' /\
    fst (getVolumeAndCentre (1 # 1000) tets)
    == fst (getVolumeAndCentre (1 # 1000) tets').
Proof.
  destruct (face_order_irrelevant (1 # 1000) twoCubes cubePoints 0%nat 1%nat
              (mkVec half half half) vzero []
              [0; 1; 2; 3; 4; 5]%nat [5; 4; 3; 2; 1; 0]%nat)
    as (tets & tets' & E & E' & _ & Hv & _).
  - reflexivity.
  - reflexivity.
  - exact (Permutation_rev [0; 1; 2; 3; 4; 5]%nat).
  - cbn. lia.
  - exact cubeMesh_inRange.
  - exists tets, tets'. split; [exact E |]. split; [exact E' | exact Hv].
Defined.

(** ** The classification loop, seen from outside *)


(** ** Translating the tetrahedron and the plane together *)

Lemma edgeCut_shift (x : vector) (Cp Cq Cp' Cq' : Q) (P N : point) :
  0 < Cp -> Cq < 0 -> Cp' == Cp -> Cq' == Cq ->
  veq (edgeCut Cp' Cq' (vsub P x) (vsub N x)) (vsub (edgeCut Cp Cq P N) x).
Proof.
  intros Hp Hq Ep Eq.
  cbv [edgeCut edgeWeights veq vadd vsub vscale vx vy vz].
  rewrite Ep, Eq. repeat split; field; lra.
Qed.

Ltac shifted_vertex x HC' :=
  lazymatch goal with
  | |- veq (edgeCut ?a' ?b' (vsub ?P x) (vsub ?N x)) (vsub (edgeCut ?a ?b ?P ?N) x) =>
      apply (edgeCut_shift x a b a' b' P N);
      [assumption | assumption | apply HC' | apply HC']
  | |- veq ?a ?a => reflexivity
  end.

Lemma shifted_cases (x : vector) (C C' : ix -> Q) (k : classes) (t : Tetrahedron) :
  (forall i, C' i == C i) ->
  classified C k ->
  Forall2 (shifted x) (fst (splitCases C' k (tshift x t) []))
                      (fst (splitCases C k t [])).
Proof.
  intros HC' [Hp Hn Hz Hc].
  destruct k as [ps ns zs]; cbn [pos neg zero] in *.
  class_shapes ps ns zs Hc; forall_inv; run_split;
    repeat (apply Forall2_cons; [|]); try apply Forall2_nil;
    all_ix; try discriminate Hc;
    unfold shifted, teq; cbn [tshift tget tset t0 t1 t2 t3];
    refine (conj _ (conj _ (conj _ _))); shifted_vertex x HC'.
Qed.

(** X17. The clipper commutes with translation: moving the tetrahedron
    by [- x] and the plane with it (offset [d - x . n]) yields the
    tetrahedra of the original call, each moved by [- x]. *)
Theorem split_translation (x n : vector) (d : Q) (t : Tetrahedron) :
  Forall2 (fun a b => teq a (tshift x b))
          (splitAndDecompose (n, d - dot x n) (tshift x t) [])
          (splitAndDecompose (n, d) t []).
Proof.
  assert (HC' : forall i, distance (n, d - dot x n) (tshift x t) i
                          == distance (n, d) t i).
  { intros []; cbv [distance dot tshift vsub tget t0 t1 t2 t3 fst snd vx vy vz];
      ring. }
  assert (HC1 : forall i, distance (n, d - dot x n) (tshift x t) i
                          == 1 * distance (n, d) t i)
    by (intro i; rewrite (HC' i); ring).
  unfold splitAndDecompose, splitRun.
  rewrite (classify_scale 1 (distance (n, d) t) _ eq_refl HC1).
  apply (shifted_cases x _ _ _ t HC'). apply classify_classified.
Qed.

(** ** A plane without a normal *)

(** X18. With a zero normal every distance is [- d]: the whole
    tetrahedron is appended when [d > 0] and nothing is appended when
    [d <= 0]. *)
Theorem zero_normal (n : vector) (d : Q) (t : Tetrahedron) (buf : list Tetrahedron) :
  veq n vzero ->
  (0 < d -> splitAndDecompose (n, d) t buf = buf ++ [t]) /\
  (d <= 0 -> splitAndDecompose (n, d) t buf = buf).
Proof.
  intros (Hx & Hy & Hz). cbn [vzero vx vy vz] in Hx, Hy, Hz.
  assert (HC : forall i, distance (n, d) t i == - d).
  { intro i. cbv [distance dot fst snd]. rewrite Hx, Hy, Hz. ring. }
  pose proof (classify_classified (distance (n, d) t)) as Hk.
  unfold splitAndDecompose, splitRun. split; intro Hd.
  - apply splitCases_no_pos.
    + apply (classified_no_pos _ _ Hk). intros i Hi. rewrite (HC i) in Hi. lra.
    + apply (classified_some_neg _ _ i0 Hk). rewrite (HC i0). lra.
  - apply splitCases_no_neg.
    apply (classified_no_neg _ _ Hk). intros i Hi. rewrite (HC i) in Hi. lra.
Qed.

Lemma zero_normal_witness :
  veq vzero vzero /\
  splitAndDecompose (vzero, 1) unitTet [] = [] ++ [unitTet] /\
  splitAndDecompose (vzero, 0) unitTet [] = [].
Proof.
  split; [reflexivity |]. split.
  - apply (proj1 (zero_normal vzero 1 unitTet [] (veq_refl vzero))). reflexivity.
  - apply (proj2 (zero_normal vzero 0 unitTet [] (veq_refl vzero))).
    unfold Qle; cbn; lia.
Defined.
